(** * Resilient multi-model invocation layer (AI service, Gemini integration)

    A shallow embedding of the retry / backoff / fallback code of the
    AI service module: [calculateBackoffDelay], [enforceRateLimit],
    [isRetryableError], [getNextModel], [resetToMainModel],
    [getCurrentModel], [executeWithRetry] and [extractJson], followed by
    [initializeGemini], [isInitialized], [getCurrentModelInfo], the
    generation endpoints and [fileToBase64].

    Conventions of the embedding.
    - A JavaScript string is a [string]; each [ascii] stands for one code
      unit below 256 (the Latin-1 range).
    - JavaScript numbers holding millisecond counts read from [Date.now()]
      are [Z]; numbers produced with [Math.random] and [Math.pow] are exact
      rationals [Q].
    - Module-level mutable variables live in a [World] record that every
      stateful function takes and returns.
    - [console.log] / [console.warn] calls have no effect on the modelled
      state and are left out. *)

From Stdlib Require Import List Arith ZArith QArith Qround Qminmax Qpower.
From Stdlib Require Import Lia Lqa Bool.
From Stdlib Require Import Strings.String Strings.Ascii Numbers.DecimalString.
Import ListNotations.

Set Implicit Arguments.

(* ------------------------------------------------------------------ *)
(** ** JavaScript string primitives used by the module *)

Module JsString.

Open Scope string_scope.

(** [String.prototype.toLowerCase] on one code unit below 256:
    [A]-[Z] and the Latin-1 capitals U+00C0..U+00DE (U+00D7 excepted)
    move up by 32, every other unit is kept. *)
Definition lowerUnit (c : ascii) : ascii :=
  let n := nat_of_ascii c in
  if ((65 <=? n) && (n <=? 90))%nat then ascii_of_nat (n + 32)
  else if ((192 <=? n) && (n <=? 222) && negb (n =? 215))%nat
       then ascii_of_nat (n + 32)
  else c.

Fixpoint toLowerCase (s : string) : string :=
  match s with
  | EmptyString => EmptyString
  | String c rest => String (lowerUnit c) (toLowerCase rest)
  end.

(** [s.startsWith(p)]. *)
Fixpoint startsWith (p s : string) : bool :=
  match p, s with
  | EmptyString, _ => true
  | String _ _, EmptyString => false
  | String a p', String b s' => Ascii.eqb a b && startsWith p' s'
  end.

(** [s.includes(sub)]: some suffix of [s] starts with [sub]. *)
Fixpoint includes (s sub : string) : bool :=
  startsWith sub s ||
  match s with
  | EmptyString => false
  | String _ rest => includes rest sub
  end.

(** ECMAScript [WhiteSpace] and [LineTerminator] units below 256: the
    class [\s] of a regular expression and what [trim] strips. *)
Definition isSpace (c : ascii) : bool :=
  let n := nat_of_ascii c in
  ((9 <=? n) && (n <=? 13) || (n =? 32) || (n =? 160))%nat.

Fixpoint trimStart (s : string) : string :=
  match s with
  | EmptyString => EmptyString
  | String c rest => if isSpace c then trimStart rest else s
  end.

Fixpoint trimEnd (s : string) : string :=
  match s with
  | EmptyString => EmptyString
  | String c rest =>
      match trimEnd rest with
      | EmptyString => if isSpace c then EmptyString else String c EmptyString
      | kept => String c kept
      end
  end.

Definition trim (s : string) : string := trimEnd (trimStart s).

(** Decimal rendering of a non-negative integer inside a template
    literal. *)
Definition ofNat (n : nat) : string :=
  NilZero.string_of_uint (Nat.to_uint n).

End JsString.

(* ------------------------------------------------------------------ *)
(** ** Thrown values and the retryability classifier *)

(** A value caught by [catch (error)].  [error instanceof Error] holds
    exactly for [ErrorObject]; of an [Error] only the [message] is read. *)
Inductive JsPrimitive : Type :=
| JsStringValue (s : string)
| JsBoolean (b : bool)
| JsNull
| JsUndefined.

Record JsError : Type := mkError { message : string }.

Inductive Thrown : Type :=
| ErrorObject (e : JsError)
| OtherValue (v : JsPrimitive).

(** [String(v)] for the primitive values above. *)
Definition String_ (v : JsPrimitive) : string :=
  match v with
  | JsStringValue s => s
  | JsBoolean true => "true"
  | JsBoolean false => "false"
  | JsNull => "null"
  | JsUndefined => "undefined"
  end.

(** The nine substrings tested by [isRetryableError], in source order. *)
Definition retryableKeywords : list string :=
  [ "503"; "overloaded"; "429"; "rate limit"; "quota";
    "resource exhausted"; "temporarily unavailable"; "network";
    "timeout" ]%string.

Definition isRetryableError (error : Thrown) : bool :=
  match error with
  | ErrorObject e =>
      let message := JsString.toLowerCase (message e) in
      JsString.includes message "503" ||
      JsString.includes message "overloaded" ||
      JsString.includes message "429" ||
      JsString.includes message "rate limit" ||
      JsString.includes message "quota" ||
      JsString.includes message "resource exhausted" ||
      JsString.includes message "temporarily unavailable" ||
      JsString.includes message "network" ||
      JsString.includes message "timeout"
  | OtherValue _ => false
  end.

(* ------------------------------------------------------------------ *)
(** ** Configuration constants *)

Record RetryConfig : Type := mkRetryConfig {
  maxRetries : nat;
  baseDelayMs : Q;
  maxDelayMs : Q;
  backoffMultiplier : Q
}.

Definition RETRY_CONFIG : RetryConfig :=
  {| maxRetries := 3;
     baseDelayMs := 1000;
     maxDelayMs := 30000;
     backoffMultiplier := 2 |}.

(** [RATE_LIMIT.minDelayBetweenCallsMs]; the mutable field
    [RATE_LIMIT.lastCallTime] (initially 0) is part of the [World]. *)
Definition minDelayBetweenCallsMs : Z := 500.

(** A [GenerativeModel] handle is identified by the model name it was
    built from with [getGenerativeModel({ model: name })]. *)
Record GenerativeModel : Type := mkModel { model : string }.

Definition MODEL_CHAIN : list string :=
  [ "gemini-2.5-pro"; "gemini-2.5-flash"; "gemini-2.0-flash-exp";
    "gemini-1.5-pro" ]%string.

(* ------------------------------------------------------------------ *)
(** ** Backoff delay *)

(** [calculateBackoffDelay(attempt)], with the value returned by
    [Math.random()] made an explicit argument [random]. *)
Definition calculateBackoffDelay (random : Q) (attempt : nat) : Q :=
  let baseDelay :=
    baseDelayMs RETRY_CONFIG *
    Qpower (backoffMultiplier RETRY_CONFIG) (Z.of_nat attempt) in
  let jitter := random * (3 # 10) * baseDelay in
  Qmin (baseDelay + jitter) (maxDelayMs RETRY_CONFIG).

(* ------------------------------------------------------------------ *)
(** ** The world: clock, module variables, and an event trace *)

(** Which [sleep] call of the module an event comes from. *)
Inductive SleepSite : Type :=
| RateLimitWait      (* in enforceRateLimit *)
| BackoffWait        (* after a retryable failure *)
| ModelSwitchWait.   (* sleep(2000) before trying the next model *)

Inductive Event : Type :=
| EvSleep (site : SleepSite) (ms : Q)
| EvAttempt (index : nat) (used : GenerativeModel).

(** What the program cannot control: the draws of [Math.random] and how
    much later than requested a timer fires.  Both are indexed by the
    number of events recorded so far. *)
Record Env : Type := mkEnv {
  mathRandom : nat -> Q;
  timerLag : nat -> nat
}.

Record World : Type := mkWorld {
  clock : Z;                              (* what Date.now() returns *)
  lastCallTime : Z;                       (* RATE_LIMIT.lastCallTime *)
  primaryModel : option GenerativeModel;  (* null before initialisation *)
  fallbackModels : list GenerativeModel;
  currentModelIndex : nat;
  trace : list Event                      (* newest event first *)
}.

Definition Date_now (w : World) : Z := clock w.

(** [await sleep(ms)]: the timer fires no sooner than [ms] (truncated,
    never negative) milliseconds later. *)
Definition sleep (env : Env) (site : SleepSite) (ms : Q) (w : World) : World :=
  {| clock := (clock w + Z.max 0 (Qfloor ms)
               + Z.of_nat (timerLag env (List.length (trace w))))%Z;
     lastCallTime := lastCallTime w;
     primaryModel := primaryModel w;
     fallbackModels := fallbackModels w;
     currentModelIndex := currentModelIndex w;
     trace := EvSleep site ms :: trace w |}.

Definition set_lastCallTime (t : Z) (w : World) : World :=
  {| clock := clock w;
     lastCallTime := t;
     primaryModel := primaryModel w;
     fallbackModels := fallbackModels w;
     currentModelIndex := currentModelIndex w;
     trace := trace w |}.

Definition set_currentModelIndex (i : nat) (w : World) : World :=
  {| clock := clock w;
     lastCallTime := lastCallTime w;
     primaryModel := primaryModel w;
     fallbackModels := fallbackModels w;
     currentModelIndex := i;
     trace := trace w |}.

(** Time passing while the caller does something else. *)
Definition elapse (ms : nat) (w : World) : World :=
  {| clock := (clock w + Z.of_nat ms)%Z;
     lastCallTime := lastCallTime w;
     primaryModel := primaryModel w;
     fallbackModels := fallbackModels w;
     currentModelIndex := currentModelIndex w;
     trace := trace w |}.

(* ------------------------------------------------------------------ *)
(** ** Rate limiter *)

Definition enforceRateLimit (env : Env) (w : World) : World :=
  let now := Date_now w in
  let timeSinceLastCall := (now - lastCallTime w)%Z in
  let w1 :=
    if (timeSinceLastCall <? minDelayBetweenCallsMs)%Z
    then sleep env RateLimitWait
               (inject_Z (minDelayBetweenCallsMs - timeSinceLastCall)) w
    else w in
  set_lastCallTime (Date_now w1) w1.

(* ------------------------------------------------------------------ *)
(** ** Model chain *)

(** [getNextModel()]; [None] is the [null] result. *)
Definition getNextModel (w : World) : option GenerativeModel * World :=
  if (currentModelIndex w <? List.length (fallbackModels w))%nat then
    let w1 := set_currentModelIndex (currentModelIndex w + 1) w in
    (nth_error (fallbackModels w1) (currentModelIndex w1 - 1), w1)
  else (None, w).

Definition resetToMainModel (w : World) : World :=
  set_currentModelIndex 0 w.

Definition notInitializedError : JsError :=
  mkError "Gemini not initialized. Please provide an API key first.".

(** [getCurrentModel()]: [inl] is the thrown error. *)
Definition getCurrentModel (w : World) : JsError + GenerativeModel :=
  match primaryModel w with
  | None => inl notInitializedError
  | Some primary =>
      if (currentModelIndex w =? 0)%nat then inr primary
      else
        match nth_error (fallbackModels w) (currentModelIndex w - 1) with
        | Some fallback => inr fallback
        | None => inr primary
        end
  end.

(** The module variables right after the model handles are built in
    [initializeGemini], before the validation probes. *)
Definition initializedWorld (now : Z) : World :=
  {| clock := now;
     lastCallTime := 0;
     primaryModel := option_map mkModel (nth_error MODEL_CHAIN 0);
     fallbackModels := map mkModel (skipn 1 MODEL_CHAIN);
     currentModelIndex := 0;
     trace := [] |}.

(** Number of backends in the chain of [w]. *)
Definition chainLength (w : World) : nat := S (List.length (fallbackModels w)).

(* ------------------------------------------------------------------ *)
(** ** Execution with retry and model fallback *)

(** How the promise returned by [operation(currentModel)] settles. *)
Inductive Settled (T : Type) : Type :=
| Fulfilled (result : T)
| Rejected (error : Thrown).

Arguments Rejected {T} error.

(** The caller's closure.  What it does may depend on anything, so it is
    given the ordinal of the invocation within the running
    [executeWithRetry] (0 for the first) next to the model handle; it
    answers with how the promise settles and how long that took. *)
Definition Operation (T : Type) : Type :=
  nat -> GenerativeModel -> Settled T * nat.

(** The [throw] statement an exception comes from. *)
Inductive ThrowSite : Type :=
| FromGetCurrentModel   (* throw new Error('Gemini not initialized...') *)
| FromLastError         (* throw lastError *)
| FromExhausted.        (* throw new Error(`... failed after ...`) *)

Inductive Completion (T : Type) : Type :=
| Returned (result : T)
| Threw (site : ThrowSite) (e : JsError).

Arguments Threw {T} site e.

(** Local variables of [executeWithRetry]. *)
Record Locals : Type := mkLocals {
  lastError : option JsError;      (* null is None *)
  totalAttempts : nat
}.

(** [error instanceof Error ? error : new Error(String(error))]. *)
Definition asError (error : Thrown) : JsError :=
  match error with
  | ErrorObject e => e
  | OtherValue v => mkError (String_ v)
  end.

(** The template literal of the final [throw]. *)
Definition exhaustedMessage (operationName : string) (attempts models : nat)
    (last : option JsError) : string :=
  (operationName ++ " failed after " ++ JsString.ofNat attempts
   ++ " total attempts across " ++ JsString.ofNat models
   ++ " models. Last error: "
   ++ match last with
      | Some e => message e
      | None => "undefined"
      end)%string.

Section Orchestrator.

Variable T : Type.
Variable env : Env.
Variable operation : Operation T.

(** [await operation(currentModel)]. *)
Definition callOperation (ordinal : nat) (currentModel : GenerativeModel)
    (w : World) : Settled T * World :=
  let (settled, took) := operation ordinal currentModel in
  (settled,
   {| clock := (clock w + Z.of_nat took)%Z;
      lastCallTime := lastCallTime w;
      primaryModel := primaryModel w;
      fallbackModels := fallbackModels w;
      currentModelIndex := currentModelIndex w;
      trace := EvAttempt (currentModelIndex w) currentModel :: trace w |}).

(** The inner loop [for (retry = 0; retry < maxRetries; retry++)], with
    [remaining = maxRetries - retry] iterations still to run.  The first
    component is [Some c] when the body left the function with [c] and
    [None] when the loop ran to its end. *)
Fixpoint retryLoop (remaining retry : nat) (currentModel : GenerativeModel)
    (loc : Locals) (w : World) : option (Completion T) * Locals * World :=
  match remaining with
  | O => (None, loc, w)
  | S remaining' =>
      let loc1 := mkLocals (lastError loc) (totalAttempts loc + 1) in
      let w1 := enforceRateLimit env w in
      let (settled, w2) :=
        callOperation (totalAttempts loc) currentModel w1 in
      match settled with
      | Fulfilled result => (Some (Returned result), loc1, w2)
      | Rejected error =>
          let loc2 := mkLocals (Some (asError error)) (totalAttempts loc1) in
          if isRetryableError error then
            let delay :=
              calculateBackoffDelay
                (mathRandom env (List.length (trace w2))) retry in
            let w3 := sleep env BackoffWait delay w2 in
            retryLoop remaining' (S retry) currentModel loc2 w3
          else (Some (Threw FromLastError (asError error)), loc2, w2)
      end
  end.

(** The outer loop
    [for (modelAttempt = 0; modelAttempt <= fallbackModels.length; ...)],
    with [remaining = fallbackModels.length + 1 - modelAttempt]. *)
Fixpoint modelLoop (remaining : nat) (loc : Locals) (w : World)
    : option (Completion T) * Locals * World :=
  match remaining with
  | O => (None, loc, w)
  | S remaining' =>
      match getCurrentModel w with
      | inl e => (Some (Threw FromGetCurrentModel e), loc, w)
      | inr currentModel =>
          match retryLoop (maxRetries RETRY_CONFIG) 0 currentModel loc w with
          | (Some c, loc1, w1) => (Some c, loc1, w1)
          | (None, loc1, w1) =>
              match getNextModel w1 with
              | (None, w2) => (None, loc1, w2)               (* break *)
              | (Some _, w2) =>
                  modelLoop remaining' loc1
                            (sleep env ModelSwitchWait 2000 w2)
              end
          end
      end
  end.

Definition executeWithRetry (operationName : string) (w : World)
    : Completion T * World :=
  match modelLoop (List.length (fallbackModels w) + 1) (mkLocals None 0) w with
  | (Some c, _, w1) => (c, w1)
  | (None, loc, w1) =>
      let w2 := resetToMainModel w1 in
      (Threw FromExhausted
         (mkError (exhaustedMessage operationName (totalAttempts loc)
                                    (currentModelIndex w2 + 1)
                                    (lastError loc))),
       w2)
  end.

End Orchestrator.

(* ------------------------------------------------------------------ *)
(** ** JSON extraction from a model response *)

Module Regex.

Import JsString.
Open Scope string_scope.

Definition fence : string := "```".

Fixpoint drop (n : nat) (s : string) : string :=
  match n, s with
  | O, _ => s
  | S _, EmptyString => EmptyString
  | S n', String _ rest => drop n' rest
  end.

(** The greedy optional group [(?:json)?]. *)
Definition optionalJson (s : string) : string :=
  if startsWith "json" s then drop 4 s else s.

(** The lazy group [([\s\S]*?)] followed by the closing fence: the text
    before the first closing fence, when there is one. *)
Fixpoint upToFence (s : string) : option string :=
  if startsWith fence s then Some EmptyString
  else
    match s with
    | EmptyString => None
    | String c rest =>
        match upToFence rest with
        | Some captured => Some (String c captured)
        | None => None
        end
    end.

(** One attempt of [/```(?:json)?\s*([\s\S]*?)```/] at the start of [s];
    the result is capture group 1.  The greedy choices ([json] taken,
    all white space taken) are the first the engine tries; the other
    choices only move the start of the group back over units that are
    not back-quotes, so they find a closing fence exactly when the
    greedy choices do. *)
Definition codeBlockAt (s : string) : option string :=
  if startsWith fence s
  then upToFence (trimStart (optionalJson (drop 3 s)))
  else None.

(** [text.match(/```(?:json)?\s*([\s\S]*?)```/)]: the leftmost start
    position at which an attempt succeeds; [None] is [null]. *)
Fixpoint codeBlockMatch (text : string) : option string :=
  match codeBlockAt text with
  | Some captured => Some captured
  | None =>
      match text with
      | EmptyString => None
      | String _ rest => codeBlockMatch rest
      end
  end.

(** The greedy [[\s\S]*\}]: the longest prefix of [s] ending in [}]. *)
Fixpoint upToLastBrace (s : string) : option string :=
  match s with
  | EmptyString => None
  | String c rest =>
      match upToLastBrace rest with
      | Some longer => Some (String c longer)
      | None => if Ascii.eqb c "}" then Some (String c EmptyString) else None
      end
  end.

(** [text.match(/\{[\s\S]*\}/)]: match 0, or [None] for [null]. *)
Fixpoint objectMatch (text : string) : option string :=
  match text with
  | EmptyString => None
  | String c rest =>
      if Ascii.eqb c "{" then
        match upToLastBrace rest with
        | Some body => Some (String c body)
        | None => objectMatch rest
        end
      else objectMatch rest
  end.

End Regex.

(** What [extractJson] does: return a value, or let one of two kinds of
    exception escape. *)
Inductive Extraction (J : Type) : Type :=
| Extracted (value : J)
| ThrewSyntaxError                (* raised inside JSON.parse *)
| ThrewError (e : JsError).       (* throw new Error('No valid JSON ...') *)

Arguments ThrewSyntaxError {J}.
Arguments ThrewError {J} e.

Section Extractor.

(** [JSON.parse] belongs to the JavaScript runtime; the extractor is
    written over any parser, [None] standing for a [SyntaxError]. *)
Variable J : Type.
Variable JSON_parse : string -> option J.

Definition parseOrThrow (source : string) : Extraction J :=
  match JSON_parse source with
  | Some value => Extracted value
  | None => ThrewSyntaxError
  end.

Definition extractJson (text : string) : Extraction J :=
  match Regex.codeBlockMatch text with
  | Some group1 => parseOrThrow (JsString.trim group1)
  | None =>
      match Regex.objectMatch text with
      | Some match0 => parseOrThrow match0
      | None => ThrewError (mkError "No valid JSON found in response")
      end
  end.

End Extractor.

(* ------------------------------------------------------------------ *)
(** ** A reader for a subset of JSON

    [JSON.parse] is a built-in of the JavaScript runtime.  Concrete runs of
    [extractJson] below use this reader, which follows the JSON grammar for
    [null], [true], [false], integers, strings without escape sequences,
    arrays and objects.  Texts with escape sequences, fractions or
    exponents are outside the subset and are rejected. *)

Module Json.

Import JsString.
Open Scope string_scope.

#[local] Unset Elimination Schemes.
Inductive value : Type :=
| Null
| Bool (b : bool)
| Number (n : Z)
| Str (s : string)
| Array (elements : list value)
| Object (members : list (string * value)).
#[local] Set Elimination Schemes.

Definition dquote : ascii := "034"%char.
Definition backslash : ascii := "092"%char.

(** JSON white space: space, tab, line feed, carriage return. *)
Definition isWs (c : ascii) : bool :=
  let n := nat_of_ascii c in
  ((n =? 32) || (n =? 9) || (n =? 10) || (n =? 13))%nat.

Fixpoint skipWs (s : string) : string :=
  match s with
  | EmptyString => EmptyString
  | String c rest => if isWs c then skipWs rest else s
  end.

Definition digitOf (c : ascii) : option Z :=
  let n := nat_of_ascii c in
  if ((48 <=? n) && (n <=? 57))%nat then Some (Z.of_nat (n - 48)) else None.

Fixpoint digits (acc : Z) (s : string) : Z * string :=
  match s with
  | EmptyString => (acc, s)
  | String c rest =>
      match digitOf c with
      | Some d => digits (10 * acc + d)%Z rest
      | None => (acc, s)
      end
  end.

(** An integer without sign: [0], or a digit from 1 to 9 followed by
    digits; a fraction or exponent after it is rejected. *)
Definition natural (s : string) : option (Z * string) :=
  match s with
  | EmptyString => None
  | String c rest =>
      match digitOf c with
      | None => None
      | Some d =>
          let (n, after) := if (d =? 0)%Z then (0%Z, rest) else digits d rest in
          match after with
          | String c' _ =>
              if Ascii.eqb c' "." || Ascii.eqb c' "e" || Ascii.eqb c' "E"
                 || match digitOf c' with Some _ => true | None => false end
              then None else Some (n, after)
          | EmptyString => Some (n, after)
          end
      end
  end.

(** The units of a string up to its closing quote. *)
Fixpoint stringBody (s : string) : option (string * string) :=
  match s with
  | EmptyString => None
  | String c rest =>
      if Ascii.eqb c dquote then Some (EmptyString, rest)
      else if Ascii.eqb c backslash || (nat_of_ascii c <? 32)%nat then None
      else
        match stringBody rest with
        | Some (body, after) => Some (String c body, after)
        | None => None
        end
  end.

Definition literal (word : string) (v : value) (s : string)
    : option (value * string) :=
  if startsWith word s then Some (v, Regex.drop (length word) s) else None.

Fixpoint parseValue (fuel : nat) (s : string) : option (value * string) :=
  match fuel with
  | O => None
  | S fuel' =>
      match skipWs s with
      | EmptyString => None
      | String c rest as s' =>
          if Ascii.eqb c "n" then literal "null" Null s'
          else if Ascii.eqb c "t" then literal "true" (Bool true) s'
          else if Ascii.eqb c "f" then literal "false" (Bool false) s'
          else if Ascii.eqb c dquote then
            match stringBody rest with
            | Some (body, after) => Some (Str body, after)
            | None => None
            end
          else if Ascii.eqb c "-" then
            match natural rest with
            | Some (n, after) => Some (Number (- n), after)
            | None => None
            end
          else if Ascii.eqb c "[" then
            match skipWs rest with
            | String c' after =>
                if Ascii.eqb c' "]" then Some (Array [], after)
                else
                  match parseElements fuel' rest with
                  | Some (vs, after') => Some (Array vs, after')
                  | None => None
                  end
            | EmptyString => None
            end
          else if Ascii.eqb c "{" then
            match skipWs rest with
            | String c' after =>
                if Ascii.eqb c' "}" then Some (Object [], after)
                else
                  match parseMembers fuel' rest with
                  | Some (ms, after') => Some (Object ms, after')
                  | None => None
                  end
            | EmptyString => None
            end
          else
            match natural s' with
            | Some (n, after) => Some (Number n, after)
            | None => None
            end
      end
  end

with parseElements (fuel : nat) (s : string)
    : option (list value * string) :=
  match fuel with
  | O => None
  | S fuel' =>
      match parseValue fuel' s with
      | None => None
      | Some (v, after) =>
          match skipWs after with
          | String c rest =>
              if Ascii.eqb c "]" then Some ([v], rest)
              else if Ascii.eqb c "," then
                match parseElements fuel' rest with
                | Some (vs, rest') => Some (v :: vs, rest')
                | None => None
                end
              else None
          | EmptyString => None
          end
      end
  end

with parseMembers (fuel : nat) (s : string)
    : option (list (string * value) * string) :=
  match fuel with
  | O => None
  | S fuel' =>
      match skipWs s with
      | String q rest =>
          if Ascii.eqb q dquote then
            match stringBody rest with
            | None => None
            | Some (key, after) =>
                match skipWs after with
                | String colon after' =>
                    if Ascii.eqb colon ":" then
                      match parseValue fuel' after' with
                      | None => None
                      | Some (v, after'') =>
                          match skipWs after'' with
                          | String c rest' =>
                              if Ascii.eqb c "}" then Some ([(key, v)], rest')
                              else if Ascii.eqb c "," then
                                match parseMembers fuel' rest' with
                                | Some (ms, rest'') =>
                                    Some ((key, v) :: ms, rest'')
                                | None => None
                                end
                              else None
                          | EmptyString => None
                          end
                      end
                    else None
                | EmptyString => None
                end
            end
          else None
      | EmptyString => None
      end
  end.

(** The whole text must be one value, white space around it allowed.
    Every call consumes at least one unit, so twice the length is
    enough fuel. *)
Definition parse (text : string) : option value :=
  match parseValue (2 * length text + 2) text with
  | Some (v, after) =>
      match skipWs after with
      | EmptyString => Some v
      | String _ _ => None
      end
  | None => None
  end.

End Json.

(* ------------------------------------------------------------------ *)
(** ** Observations on traces *)

Definition isAttemptOn (index : nat) (ev : Event) : bool :=
  match ev with
  | EvAttempt i _ => (i =? index)%nat
  | EvSleep _ _ => false
  end.

(** How many times the operation was invoked while the cursor was at
    [index]. *)
Definition attemptsOn (index : nat) (events : list Event) : nat :=
  List.length (filter (isAttemptOn index) events).

Definition isAttempt (ev : Event) : bool :=
  match ev with
  | EvAttempt _ _ => true
  | EvSleep _ _ => false
  end.

Definition attempts (events : list Event) : nat :=
  List.length (filter isAttempt events).

Definition isSleepAt (site : SleepSite) (ev : Event) : bool :=
  match ev, site with
  | EvSleep RateLimitWait _, RateLimitWait => true
  | EvSleep BackoffWait _, BackoffWait => true
  | EvSleep ModelSwitchWait _, ModelSwitchWait => true
  | _, _ => false
  end.

Definition sleepsAt (site : SleepSite) (events : list Event) : nat :=
  List.length (filter (isSleepAt site) events).

(** The chain part of the world is the same in [w] and [w']. *)
Definition sameChain (w w' : World) : Prop :=
  primaryModel w' = primaryModel w /\
  fallbackModels w' = fallbackModels w /\
  currentModelIndex w' = currentModelIndex w.

(** The backend at position [index] of the chain: the primary at 0, the
    fallbacks after it. *)
Definition backendAt (w : World) (index : nat) : option GenerativeModel :=
  match index with
  | O => primaryModel w
  | S i => nth_error (fallbackModels w) i
  end.

(* ------------------------------------------------------------------ *)
(** ** The specification's wording, for comparison *)

Module Spec.

Import JsString.
Open Scope string_scope.

(** "contains [keyword], compared case-insensitively": some substring
    of [text] becomes [keyword] when lowered. *)
Definition containsIgnoringCase (text keyword : string) : Prop :=
  exists before middle after,
    text = before ++ middle ++ after /\ toLowerCase middle = keyword.

(** The text from just after an opening brace, [opened] further braces
    being open, up to and including the brace that closes it. *)
Fixpoint closeObject (opened : nat) (s : string) : option string :=
  match s with
  | EmptyString => None
  | String c rest =>
      if Ascii.eqb c "}" then
        match opened with
        | O => Some (String c EmptyString)
        | S fewer =>
            match closeObject fewer rest with
            | Some body => Some (String c body)
            | None => None
            end
        end
      else
        match closeObject (if Ascii.eqb c "{" then S opened else opened)
                          rest with
        | Some body => Some (String c body)
        | None => None
        end
  end.

(** "the first balanced top-level object literal in the raw text
    (outermost matching pair of structural brackets)". *)
Fixpoint firstBalancedObject (text : string) : option string :=
  match text with
  | EmptyString => None
  | String c rest =>
      if Ascii.eqb c "{" then
        match closeObject 0 rest with
        | Some body => Some (String c body)
        | None => firstBalancedObject rest
        end
      else firstBalancedObject rest
  end.

Section Extract.

Variable J : Type.
Variable JSON_parse : string -> option J.

Definition parseFound (found : option string) : option J :=
  match found with
  | Some source => JSON_parse source
  | None => None
  end.

(** The two tiers of section 4.5; [None] is [ExtractionError]. *)
Definition extract (rawText : string) : option J :=
  match parseFound (option_map trim (Regex.codeBlockMatch rawText)) with
  | Some value => Some value
  | None => parseFound (firstBalancedObject rawText)
  end.

End Extract.

End Spec.


(** Sample texts. *)
Definition quoted (s : string) : string :=
  (String Json.dquote s ++ String Json.dquote EmptyString)%string.

Definition lineFeed : string := String "010"%char EmptyString.

(** The object literal with member [a] equal to 1. *)
Definition sampleObject : string := ("{" ++ quoted "a" ++ ":1}")%string.

(** The un-jittered exponential value [base * multiplier^attempt], the
    local [baseDelay] of [calculateBackoffDelay]. *)
Definition exponentialDelay (attempt : nat) : Q :=
  baseDelayMs RETRY_CONFIG *
  Qpower (backoffMultiplier RETRY_CONFIG) (Z.of_nat attempt).

(** [getNextModel()] called [n] times in a row: the results in call
    order, and the world left behind. *)
Fixpoint getNextModelTimes (n : nat) (w : World)
    : list (option GenerativeModel) * World :=
  match n with
  | O => ([], w)
  | S n' =>
      let (r, w1) := getNextModel w in
      let (rs, w2) := getNextModelTimes n' w1 in
      (r :: rs, w2)
  end.



(** Sample environment, worlds and operations. *)
Definition promptTimers : Env := mkEnv (fun _ => 0) (fun _ => O).

(** The chain of [MODEL_CHAIN] with the cursor left on the first
    fallback. *)
Definition fallbackWorld : World :=
  set_currentModelIndex 1 (initializedWorld 0).

Definition rejectsWith (error : Thrown) : Operation string :=
  fun _ _ => (Rejected error, 10%nat).

Definition always503 : Operation string :=
  rejectsWith (ErrorObject (mkError "503 Service Unavailable")).

Definition failsOnPrimary : Operation string :=
  fun _ m =>
    if String.eqb (model m) "gemini-2.5-pro"
    then (Rejected (ErrorObject (mkError "model is overloaded")), 10%nat)
    else (Fulfilled "OK"%string, 10%nat).

(** Every unit of [s] is white space. *)
Fixpoint allSpace (s : string) : bool :=
  match s with
  | EmptyString => true
  | String c rest => JsString.isSpace c && allSpace rest
  end.




(** Two objects separated by prose. *)
Definition twoObjectsSample : string :=
  (sampleObject ++ " and " ++ sampleObject)%string.

(** The error of the last [throw] of [extractJson]. *)
Definition noJsonError : JsError := mkError "No valid JSON found in response".

(* ------------------------------------------------------------------ *)
(** ** Initialisation, model information and the generation endpoints *)

(** [isInitialized()]. *)
Definition isInitialized (w : World) : bool :=
  match primaryModel w with
  | Some _ => true
  | None => false
  end.

Record ModelInfo : Type := mkModelInfo {
  name : string;
  index : nat;
  total : nat
}.

(** [getCurrentModelInfo()]; the empty string is falsy, so it too gives
    ['unknown']. *)
Definition getCurrentModelInfo (w : World) : ModelInfo :=
  {| name :=
       match nth_error MODEL_CHAIN (currentModelIndex w) with
       | Some EmptyString => "unknown"
       | Some chosen => chosen
       | None => "unknown"
       end;
     index := currentModelIndex w;
     total := List.length MODEL_CHAIN |}.

(** The [sleep(1000)] of the validation loop; the trace records the
    sleeps of [executeWithRetry] and of the rate limiter only. *)
Definition validationPause (env : Env) (w : World) : World :=
  elapse (1000 + timerLag env (List.length (trace w))) w.

(** The validation loop of [initializeGemini],
    [for (i = 0; i < MODEL_CHAIN.length && !validated; i++)], with
    [remaining = MODEL_CHAIN.length - i].  [probe i testModel] is how the
    test request to model [i] settles, the text being [response.text()].
    The result is [validated] and the world. *)
Fixpoint validateLoop (env : Env) (probe : Operation string)
    (remaining i : nat) (w : World) : bool * World :=
  match remaining with
  | O => (false, w)
  | S remaining' =>
      let testModel :=
        if (i =? 0)%nat then primaryModel w
        else nth_error (fallbackModels w) (i - 1) in
      let w1 := enforceRateLimit env w in
      match testModel with
      | None =>
          (* calling a method of undefined throws; the catch sleeps *)
          validateLoop env probe remaining' (S i) (validationPause env w1)
      | Some testModel =>
          let (settled, took) := probe i testModel in
          let w2 := elapse took w1 in
          match settled with
          | Fulfilled text =>
              if JsString.includes (JsString.toLowerCase text) "ok"
              then (true, set_currentModelIndex i w2)
              else validateLoop env probe remaining' (S i) w2
          | Rejected _ =>
              validateLoop env probe remaining' (S i) (validationPause env w2)
          end
      end
  end.

(** [initializeGemini(apiKey)].  [sdkWorks] says whether building the
    client and the model handles succeeds; when it throws the outer catch
    clears the handles and leaves [currentModelIndex] as it was.  The
    variable [geminiInstance] is only written and is left out. *)
Definition initializeGemini (env : Env) (sdkWorks : bool)
    (probe : Operation string) (w : World) : bool * World :=
  if sdkWorks then
    validateLoop env probe (List.length MODEL_CHAIN) 0
      {| clock := clock w;
         lastCallTime := lastCallTime w;
         primaryModel := option_map mkModel (nth_error MODEL_CHAIN 0);
         fallbackModels := map mkModel (skipn 1 MODEL_CHAIN);
         currentModelIndex := 0;
         trace := trace w |}
  else
    (false,
     {| clock := clock w;
        lastCallTime := lastCallTime w;
        primaryModel := None;
        fallbackModels := [];
        currentModelIndex := currentModelIndex w;
        trace := trace w |}).

(** One element of the array passed to [model.generateContent]. *)
Inductive Part : Type :=
| TextPart (text : string)
| InlineData (data mimeType : string).

(** The provider: for the parts of a request, how
    [model.generateContent(parts)] followed by [response.text()]
    settles. *)
Definition GenerateContent : Type := list Part -> Operation string.

(** What a generation endpoint does: the outcome of [extractJson] on the
    response, or the exception of [executeWithRetry]. *)
Inductive ServiceOutcome (J : Type) : Type :=
| FromExtraction (r : Extraction J)
| FromExecute (site : ThrowSite) (e : JsError).

Arguments FromExecute {J} site e.

Section Service.

Variable env : Env.
Variable generateContent : GenerateContent.
Variable J : Type.
Variable JSON_parse : string -> option J.
Variable JSON_stringify : J -> string.

Definition generateWithImage (systemPrompt imageBase64 mimeType : string)
    (w : World) : Completion string * World :=
  executeWithRetry env
    (generateContent [TextPart systemPrompt; InlineData imageBase64 mimeType])
    "generateWithImage" w.

Definition generateWithText (systemPrompt userInput : string) (w : World)
    : Completion string * World :=
  executeWithRetry env
    (generateContent [TextPart systemPrompt; TextPart userInput])
    "generateWithText" w.

(** [return extractJson(response)] after the awaited generation. *)
Definition extractResponse (r : Completion string * World)
    : ServiceOutcome J * World :=
  match r with
  | (Returned response, w') =>
      (FromExtraction (extractJson JSON_parse response), w')
  | (Threw site e, w') => (FromExecute site e, w')
  end.

Definition analyzeIdentity (imageBase64 mimeType systemPrompt : string)
    (w : World) : ServiceOutcome J * World :=
  extractResponse (generateWithImage systemPrompt imageBase64 mimeType w).

Definition generatePanelSpec (identity : J) (panelNumber : nat)
    (systemPrompt : string) (w : World) : ServiceOutcome J * World :=
  let userInput :=
    ("Generate panel specification for Panel " ++ JsString.ofNat panelNumber
     ++ ":" ++ lineFeed ++ JSON_stringify identity)%string in
  extractResponse (generateWithText systemPrompt userInput w).

Definition visualSweep (imageBase64 mimeType systemPrompt : string)
    (w : World) : ServiceOutcome J * World :=
  extractResponse (generateWithImage systemPrompt imageBase64 mimeType w).

Definition generateSpecFromText (textInput systemPrompt : string) (w : World)
    : ServiceOutcome J * World :=
  extractResponse
    (generateWithText systemPrompt
       ("Transform into visual spec:" ++ lineFeed ++ textInput)%string w).

Definition generateSpecFromImage (imageBase64 mimeType systemPrompt : string)
    (w : World) : ServiceOutcome J * World :=
  extractResponse (generateWithImage systemPrompt imageBase64 mimeType w).

End Service.

(** [s.split(',')]. *)
Fixpoint splitComma (s : string) : list string :=
  match s with
  | EmptyString => [EmptyString]
  | String c rest =>
      if Ascii.eqb c "," then EmptyString :: splitComma rest
      else
        match splitComma rest with
        | field :: fields => String c field :: fields
        | [] => [String c EmptyString]
        end
  end.

(** What [fileToBase64] resolves with once the reader has loaded
    [result]: [base64] is [result.split(',')[1]], [None] standing for
    [undefined], and [mimeType] is [file.type]. *)
Definition fileToBase64 (result fileType : string) : option string * string :=
  (nth_error (splitComma result) 1, fileType).

(** The chain of [w] is the one [initializeGemini] builds from
    [MODEL_CHAIN]. *)
Definition builtFromModelChain (w : World) : Prop :=
  primaryModel w = option_map mkModel (nth_error MODEL_CHAIN 0) /\
  fallbackModels w = map mkModel (skipn 1 MODEL_CHAIN).

(** The validation probe of model [i] of [MODEL_CHAIN] answers with a
    text that contains [ok], case ignored. *)
Definition answersOk (probe : Operation string) (i : nat) : bool :=
  match nth_error MODEL_CHAIN i with
  | Some chosen =>
      match fst (probe i (mkModel chosen)) with
      | Fulfilled text => JsString.includes (JsString.toLowerCase text) "ok"
      | Rejected _ => false
      end
  | None => false
  end.

(** A provider that answers every request with prose. *)
Definition refusingProvider : GenerateContent :=
  fun _ _ _ => (Fulfilled "I cannot help"%string, 10%nat).


(* ================================================================== *)
(** * Properties *)

Unset Implicit Arguments.

(* ------------------------------------------------------------------ *)
(** ** Strings *)

Module JsStringFacts.

Import JsString.
Open Scope string_scope.

Lemma append_assoc (a b c : string) : (a ++ b) ++ c = a ++ (b ++ c).
Proof. induction a as [|x a IH]; simpl; [reflexivity | now rewrite IH]. Qed.

Lemma append_empty_r (a : string) : a ++ "" = a.
Proof. induction a as [|x a IH]; simpl; [reflexivity | now rewrite IH]. Qed.

Lemma startsWith_iff (p s : string) :
  startsWith p s = true <-> exists t, s = p ++ t.
Proof.
  revert s; induction p as [|a p IH]; intros s; simpl.
  - split; [intros _; now exists s | reflexivity].
  - destruct s as [|b s].
    + split; [discriminate | intros [t Ht]; discriminate].
    + rewrite andb_true_iff, Ascii.eqb_eq, IH. split.
      * intros [-> [t ->]]. now exists t.
      * intros [t Ht]. injection Ht as -> ->. split; [reflexivity | now exists t].
Qed.

Lemma includes_iff (s sub : string) :
  includes s sub = true <-> exists before after, s = before ++ sub ++ after.
Proof.
  induction s as [|c s IH].
  - simpl. rewrite orb_false_r, startsWith_iff. split.
    + intros [t Ht]. now exists "", t.
    + intros [[|x before] [after H]]; [now exists after | discriminate].
  - cbn [includes]. rewrite orb_true_iff, startsWith_iff, IH. split.
    + intros [[t Ht] | [before [after Ht]]].
      * now exists "", t.
      * exists (String c before), after. simpl. now rewrite Ht.
    + intros [[|x before] [after Ht]].
      * left. now exists after.
      * right. simpl in Ht. injection Ht as -> ->. now exists before, after.
Qed.

Lemma toLowerCase_app (a b : string) :
  toLowerCase (a ++ b) = toLowerCase a ++ toLowerCase b.
Proof. induction a as [|x a IH]; simpl; [reflexivity | now rewrite IH]. Qed.

(** Lowering works unit by unit, so a split of the lowered text comes
    from a split of the text. *)
Lemma toLowerCase_split (s a b : string) :
  toLowerCase s = a ++ b ->
  exists a' b', s = a' ++ b' /\ toLowerCase a' = a /\ toLowerCase b' = b.
Proof.
  revert s; induction a as [|x a IH]; intros s H.
  - exists "", s. auto.
  - destruct s as [|c s]; [discriminate|].
    simpl in H. injection H as Hc Hs.
    destruct (IH _ Hs) as (a' & b' & -> & Ha & Hb).
    exists (String c a'), b'. simpl. now rewrite Hc, Ha.
Qed.

Lemma includes_lowered_iff (text keyword : string) :
  includes (toLowerCase text) keyword = true <->
  Spec.containsIgnoringCase text keyword.
Proof.
  rewrite includes_iff. unfold Spec.containsIgnoringCase. split.
  - intros (before & after & H).
    destruct (toLowerCase_split _ _ _ H) as (b' & rest & -> & _ & Hrest).
    destruct (toLowerCase_split _ _ _ Hrest) as (m' & a' & -> & Hm & _).
    now exists b', m', a'.
  - intros (before & middle & after & -> & <-).
    exists (toLowerCase before), (toLowerCase after).
    now rewrite !toLowerCase_app.
Qed.

End JsStringFacts.

(* ------------------------------------------------------------------ *)
(** ** Error classification *)

Lemma isRetryableError_existsb (e : JsError) :
  isRetryableError (ErrorObject e) =
  existsb (JsString.includes (JsString.toLowerCase (message e)))
          retryableKeywords.
Proof.
  unfold isRetryableError, retryableKeywords. cbn [existsb].
  rewrite orb_false_r, !orb_assoc. reflexivity.
Qed.

(** C6. [isRetryableError] answers [true] for an [Error] exactly when its
    message contains, case ignored, one of the nine keywords; so it is
    [true] for every message containing [429], [Quota exceeded] or
    [network error], and [false] for the messages [invalid argument] and
    [permission denied]. *)
Theorem isRetryableError_keywords :
  (forall e : JsError,
     isRetryableError (ErrorObject e) = true <->
     exists keyword,
       In keyword retryableKeywords /\
       Spec.containsIgnoringCase (message e) keyword) /\
  (forall before after : string,
     isRetryableError
       (ErrorObject (mkError (before ++ "429" ++ after))) = true /\
     isRetryableError
       (ErrorObject (mkError (before ++ "Quota exceeded" ++ after))) = true /\
     isRetryableError
       (ErrorObject (mkError (before ++ "network error" ++ after))) = true) /\
  isRetryableError (ErrorObject (mkError "invalid argument")) = false /\
  isRetryableError (ErrorObject (mkError "permission denied")) = false.
Proof.
  assert (Hiff : forall e : JsError,
     isRetryableError (ErrorObject e) = true <->
     exists keyword,
       In keyword retryableKeywords /\
       Spec.containsIgnoringCase (message e) keyword).
  { intros e. rewrite isRetryableError_existsb, existsb_exists.
    split; intros (k & Hin & Hk); exists k; split; trivial;
      now apply JsStringFacts.includes_lowered_iff. }
  split; [exact Hiff|]. split; [|split; reflexivity].
  intros before after. repeat split; apply Hiff; cbn [message].
  - exists "429"%string. split; [simpl; tauto|].
    now exists before, "429"%string, after.
  - exists "quota"%string. split; [simpl; tauto|].
    exists before, "Quota"%string, (" exceeded" ++ after)%string.
    split; reflexivity.
  - exists "network"%string. split; [simpl; tauto|].
    exists before, "network"%string, (" error" ++ after)%string.
    split; reflexivity.
Qed.

(* ------------------------------------------------------------------ *)
(** ** Backoff delay *)





(* ------------------------------------------------------------------ *)
(** ** Rate limiter *)

Lemma sleep_clock (env : Env) (site : SleepSite) (ms : Z) (w : World) :
  (clock w + Z.max 0 ms <= clock (sleep env site (inject_Z ms) w))%Z.
Proof. unfold sleep. cbn [clock]. rewrite Qfloor_Z. lia. Qed.

Lemma enforceRateLimit_records_now (env : Env) (w : World) :
  lastCallTime (enforceRateLimit env w) = clock (enforceRateLimit env w).
Proof. reflexivity. Qed.

Lemma enforceRateLimit_sameChain (env : Env) (w : World) :
  sameChain w (enforceRateLimit env w).
Proof.
  unfold enforceRateLimit, sameChain.
  destruct (_ <? _)%Z; simpl; auto.
Qed.

Lemma enforceRateLimit_spacing (env : Env) (w : World) :
  (lastCallTime w + minDelayBetweenCallsMs
   <= clock (enforceRateLimit env w))%Z /\
  (clock w <= clock (enforceRateLimit env w))%Z.
Proof.
  unfold enforceRateLimit, Date_now.
  destruct (Z.ltb_spec (clock w - lastCallTime w) minDelayBetweenCallsMs)
    as [Hlt | Hge]; cbn [clock set_lastCallTime].
  - pose proof (sleep_clock env RateLimitWait
                  (minDelayBetweenCallsMs - (clock w - lastCallTime w)) w).
    lia.
  - lia.
Qed.



(* ------------------------------------------------------------------ *)
(** ** Model chain *)

Lemma set_currentModelIndex_same (w : World) :
  set_currentModelIndex (currentModelIndex w) w = w.
Proof. now destruct w. Qed.

Lemma set_currentModelIndex_twice (i j : nat) (w : World) :
  set_currentModelIndex j (set_currentModelIndex i w)
  = set_currentModelIndex j w.
Proof. reflexivity. Qed.

Lemma getNextModel_advances (w : World) :
  (currentModelIndex w + 1 < chainLength w)%nat ->
  exists next,
    getNextModel w
    = (Some next, set_currentModelIndex (currentModelIndex w + 1) w) /\
    backendAt w (currentModelIndex w + 1) = Some next.
Proof.
  unfold chainLength, getNextModel. intros H.
  destruct (Nat.ltb_spec (currentModelIndex w) (List.length (fallbackModels w)))
    as [Hlt | Hge]; [|lia].
  cbn [currentModelIndex fallbackModels set_currentModelIndex].
  replace (currentModelIndex w + 1 - 1)%nat with (currentModelIndex w) by lia.
  destruct (nth_error (fallbackModels w) (currentModelIndex w)) as [next|] eqn:E.
  - exists next. split; [reflexivity|].
    replace (currentModelIndex w + 1)%nat with (S (currentModelIndex w)) by lia.
    exact E.
  - apply nth_error_None in E. lia.
Qed.

Lemma getNextModel_exhausted (w : World) :
  ~ (currentModelIndex w + 1 < chainLength w)%nat ->
  getNextModel w = (None, w).
Proof.
  unfold chainLength, getNextModel. intros H.
  destruct (Nat.ltb_spec (currentModelIndex w) (List.length (fallbackModels w)))
    as [Hlt | Hge]; [lia | reflexivity].
Qed.

Lemma getCurrentModel_backendAt (w : World) (m : GenerativeModel) :
  primaryModel w <> None ->
  backendAt w (currentModelIndex w) = Some m ->
  getCurrentModel w = inr m.
Proof.
  unfold getCurrentModel, backendAt. intros Hinit.
  destruct (primaryModel w) as [primary|]; [|congruence].
  destruct (currentModelIndex w) as [|i]; simpl.
  - congruence.
  - rewrite Nat.sub_0_r. now intros ->.
Qed.

Lemma getNextModelTimes_run (n : nat) : forall w : World,
  (currentModelIndex w + n <= List.length (fallbackModels w))%nat ->
  getNextModelTimes n w
  = (map Some (firstn n (skipn (currentModelIndex w) (fallbackModels w))),
     set_currentModelIndex (currentModelIndex w + n) w).
Proof.
  induction n as [|n IH]; intros w H.
  - simpl. now rewrite Nat.add_0_r, set_currentModelIndex_same.
  - cbn [getNextModelTimes].
    destruct (getNextModel_advances w) as (next & -> & Hnext).
    { unfold chainLength. lia. }
    rewrite IH by (simpl; lia).
    cbn [currentModelIndex fallbackModels set_currentModelIndex].
    rewrite set_currentModelIndex_twice.
    replace (currentModelIndex w + 1 + n)%nat
      with (currentModelIndex w + S n)%nat by lia.
    f_equal.
    replace (currentModelIndex w + 1)%nat with (S (currentModelIndex w))
      in * by lia.
    simpl in Hnext.
    revert Hnext H. generalize (currentModelIndex w) as i.
    generalize (fallbackModels w) as l.
    induction l as [|x l IHl]; intros [|i] Hnth Hlen; simpl in *;
      try discriminate; try lia.
    + now injection Hnth as ->.
    + apply IHl; [exact Hnth | lia].
Qed.

(** C7. [getNextModel] moves the cursor forward by one and returns the
    backend now current exactly when [cursor + 1] is below the chain
    length, and otherwise returns [null] and changes nothing.  Hence, from
    cursor 0 on a chain of [N] backends, [N - 1] calls return the fallback
    backends in order, the next call returns [null], and after
    [resetToMainModel] the current model is the primary again. *)
Theorem getNextModel_walks_chain :
  (forall w : World,
     ((currentModelIndex w + 1 < chainLength w)%nat ->
      exists next,
        getNextModel w
        = (Some next, set_currentModelIndex (currentModelIndex w + 1) w) /\
        backendAt w (currentModelIndex w + 1) = Some next /\
        (primaryModel w <> None ->
         getCurrentModel (snd (getNextModel w)) = inr next)) /\
     (~ (currentModelIndex w + 1 < chainLength w)%nat ->
      getNextModel w = (None, w))) /\
  (forall (w : World) (primary : GenerativeModel),
     primaryModel w = Some primary ->
     currentModelIndex w = O ->
     let run := getNextModelTimes (chainLength w - 1) w in
     fst run = map Some (fallbackModels w) /\
     List.length (fst run) = (chainLength w - 1)%nat /\
     getNextModel (snd run) = (None, snd run) /\
     getCurrentModel (resetToMainModel (snd (getNextModel (snd run))))
     = inr primary).
Proof.
  split.
  - intros w. split; [|apply getNextModel_exhausted].
    intros H. destruct (getNextModel_advances w H) as (next & Hcall & Hat).
    exists next. repeat split; trivial.
    intros Hinit. rewrite Hcall. cbn [snd].
    apply getCurrentModel_backendAt; [exact Hinit | exact Hat].
  - intros w primary Hprimary Hcursor run.
    assert (Hrun : run = (map Some (fallbackModels w),
                          set_currentModelIndex
                            (List.length (fallbackModels w)) w)).
    { subst run. unfold chainLength.
      replace (S (List.length (fallbackModels w)) - 1)%nat
        with (List.length (fallbackModels w)) by lia.
      rewrite getNextModelTimes_run by lia.
      rewrite Hcursor. cbn [skipn Nat.add]. now rewrite firstn_all. }
    rewrite Hrun. cbn [fst snd].
    assert (Hend : getNextModel
                     (set_currentModelIndex (List.length (fallbackModels w)) w)
                   = (None,
                      set_currentModelIndex (List.length (fallbackModels w)) w)).
    { apply getNextModel_exhausted. unfold chainLength. simpl. lia. }
    repeat split.
    + rewrite length_map. unfold chainLength. lia.
    + exact Hend.
    + rewrite Hend. cbn [snd]. unfold getCurrentModel, resetToMainModel.
      cbn [primaryModel currentModelIndex set_currentModelIndex].
      now rewrite Hprimary.
Qed.

Lemma getNextModel_walks_chain_witness :
  fst (getNextModelTimes 3 (initializedWorld 0))
  = [ Some (mkModel "gemini-2.5-flash");
      Some (mkModel "gemini-2.0-flash-exp");
      Some (mkModel "gemini-1.5-pro") ] /\
  fst (getNextModel (snd (getNextModelTimes 3 (initializedWorld 0)))) = None /\
  getCurrentModel
    (resetToMainModel
       (snd (getNextModel (snd (getNextModelTimes 3 (initializedWorld 0))))))
  = inr (mkModel "gemini-2.5-pro").
Proof.
  destruct getNextModel_walks_chain as [_ H].
  destruct (H (initializedWorld 0) (mkModel "gemini-2.5-pro")
              eq_refl eq_refl) as (Hrun & _ & Hend & Hreset).
  change (chainLength (initializedWorld 0) - 1)%nat with 3%nat in *.
  split; [exact Hrun|]. split; [|exact Hreset].
  rewrite Hend. reflexivity.
Defined.

(* ------------------------------------------------------------------ *)
(** ** Execution with retry and fallback: the inner loop *)

Lemma sameChain_refl (w : World) : sameChain w w.
Proof. unfold sameChain. auto. Qed.

Lemma sameChain_trans (a b c : World) :
  sameChain a b -> sameChain b c -> sameChain a c.
Proof. unfold sameChain. intuition congruence. Qed.

Lemma sleep_sameChain (env : Env) (site : SleepSite) (ms : Q) (w : World) :
  sameChain w (sleep env site ms w).
Proof. unfold sameChain. auto. Qed.


Lemma attemptsOn_cons (j : nat) (ev : Event) (events : list Event) :
  attemptsOn j (ev :: events)
  = ((if isAttemptOn j ev then 1 else 0) + attemptsOn j events)%nat.
Proof. unfold attemptsOn. simpl. now destruct (isAttemptOn j ev). Qed.

Lemma attempts_cons (ev : Event) (events : list Event) :
  attempts (ev :: events)
  = ((if isAttempt ev then 1 else 0) + attempts events)%nat.
Proof. unfold attempts. simpl. now destruct (isAttempt ev). Qed.

Lemma sleepsAt_cons (site : SleepSite) (ev : Event) (events : list Event) :
  sleepsAt site (ev :: events)
  = ((if isSleepAt site ev then 1 else 0) + sleepsAt site events)%nat.
Proof. unfold sleepsAt. simpl. now destruct (isSleepAt site ev). Qed.

(** The rate limiter adds no attempt and no sleep other than its own. *)
Lemma enforceRateLimit_trace (env : Env) (w : World) :
  (forall j, attemptsOn j (trace (enforceRateLimit env w))
             = attemptsOn j (trace w)) /\
  attempts (trace (enforceRateLimit env w)) = attempts (trace w) /\
  sleepsAt BackoffWait (trace (enforceRateLimit env w))
  = sleepsAt BackoffWait (trace w) /\
  sleepsAt ModelSwitchWait (trace (enforceRateLimit env w))
  = sleepsAt ModelSwitchWait (trace w).
Proof.
  unfold enforceRateLimit. destruct (_ <? _)%Z; simpl; auto.
Qed.

Section OrchestratorFacts.

Variable T : Type.
Variable env : Env.
Variable operation : Operation T.

(** One iteration of the inner loop, case by case. *)
Lemma retryLoop_step (remaining retry : nat) (m : GenerativeModel)
    (loc : Locals) (w : World) :
  let w1 := enforceRateLimit env w in
  let w2 := snd (callOperation operation (totalAttempts loc) m w1) in
  retryLoop env operation (S remaining) retry m loc w =
  match fst (operation (totalAttempts loc) m) with
  | Fulfilled result =>
      (Some (Returned result),
       mkLocals (lastError loc) (totalAttempts loc + 1), w2)
  | Rejected error =>
      let loc2 := mkLocals (Some (asError error)) (totalAttempts loc + 1) in
      if isRetryableError error then
        retryLoop env operation remaining (S retry) m loc2
          (sleep env BackoffWait
             (calculateBackoffDelay
                (mathRandom env (List.length (trace w2))) retry) w2)
      else (Some (Threw FromLastError (asError error)), loc2, w2)
  end.
Proof.
  cbn [retryLoop]. unfold callOperation.
  destruct (operation (totalAttempts loc) m) as [[result | error] took];
    reflexivity.
Qed.

Lemma callOperation_world (ordinal : nat) (m : GenerativeModel) (w : World) :
  let w2 := snd (callOperation operation ordinal m w) in
  sameChain w w2 /\
  trace w2 = EvAttempt (currentModelIndex w) m :: trace w /\
  lastCallTime w2 = lastCallTime w.
Proof.
  unfold callOperation, sameChain.
  destruct (operation ordinal m) as [settled took]. simpl. auto.
Qed.

Lemma retryLoop_sameChain (remaining : nat) :
  forall retry m loc w,
    sameChain w (snd (retryLoop env operation remaining retry m loc w)).
Proof.
  induction remaining as [|remaining IH]; intros retry m loc w.
  - apply sameChain_refl.
  - rewrite retryLoop_step.
    pose proof (enforceRateLimit_sameChain env w) as H1.
    pose proof (callOperation_world (totalAttempts loc) m
                  (enforceRateLimit env w)) as [H2 _].
    pose proof (sameChain_trans _ _ _ H1 H2) as H12.
    destruct (fst (operation (totalAttempts loc) m)) as [result | error].
    + exact H12.
    + cbv zeta. destruct (isRetryableError error).
      * eapply sameChain_trans; [|apply IH].
        eapply sameChain_trans; [exact H12 | apply sleep_sameChain].
      * exact H12.
Qed.

(** When the inner loop runs to its end, every one of its [remaining]
    invocations was made on the current backend and was rejected with a
    retryable error. *)
Lemma retryLoop_None (remaining : nat) :
  forall retry m loc w loc' w',
    retryLoop env operation remaining retry m loc w = (None, loc', w') ->
    totalAttempts loc' = (totalAttempts loc + remaining)%nat /\
    (forall j,
       attemptsOn j (trace w')
       = (attemptsOn j (trace w)
          + if (j =? currentModelIndex w)%nat then remaining else 0)%nat) /\
    (forall k, (k < remaining)%nat ->
       exists error took,
         operation (totalAttempts loc + k)%nat m = (Rejected error, took) /\
         isRetryableError error = true) /\
    match remaining with
    | O => lastError loc' = lastError loc
    | S r =>
        exists error took,
          operation (totalAttempts loc + r)%nat m = (Rejected error, took) /\
          lastError loc' = Some (asError error)
    end.
Proof.
  induction remaining as [|remaining IH]; intros retry m loc w loc' w' H.
  - simpl in H. injection H as <- <-.
    split; [lia|]. split; [|split; [|reflexivity]].
    + intros j. destruct (j =? _)%nat; lia.
    + intros k Hk. lia.
  - rewrite retryLoop_step in H.
    pose proof (callOperation_world (totalAttempts loc) m
                  (enforceRateLimit env w)) as (Hchain & Htrace & _).
    destruct (enforceRateLimit_sameChain env w) as (_ & _ & Hcursor).
    destruct (enforceRateLimit_trace env w) as (Hon & _).
    destruct (operation (totalAttempts loc) m) as [settled took] eqn:Hop.
    cbn [fst] in H. destruct settled as [result | error]; [discriminate|].
    cbv zeta in H.
    destruct (isRetryableError error) eqn:Hretry; [|discriminate].
    apply IH in H. cbn [totalAttempts lastError] in H.
    destruct H as (Htotal & Hcount & Hall & Hlast).
    split; [lia|]. split; [|split].
    + intros j. rewrite Hcount. cbn [trace sleep currentModelIndex].
      rewrite attemptsOn_cons. cbn [isSleepAt isAttemptOn].
      rewrite Htrace, attemptsOn_cons, Hon. cbn [isAttemptOn].
      destruct Hchain as (_ & _ & ->). rewrite Hcursor.
      rewrite (Nat.eqb_sym (currentModelIndex w) j).
      destruct (j =? currentModelIndex w)%nat; lia.
    + intros [|k] Hk.
      * exists error, took. now rewrite Nat.add_0_r.
      * destruct (Hall k) as (err & tk & Hk1 & Hk2); [lia|].
        exists err, tk. split; [|exact Hk2].
        now replace (totalAttempts loc + S k)%nat
          with (totalAttempts loc + 1 + k)%nat by lia.
    + destruct remaining as [|r].
      * exists error, took. now rewrite Nat.add_0_r.
      * destruct Hlast as (err & tk & Hk1 & Hk2).
        exists err, tk. split; [|exact Hk2].
        now replace (totalAttempts loc + S r)%nat
          with (totalAttempts loc + 1 + r)%nat by lia.
Qed.


Lemma retryLoop_Some (remaining : nat) :
  forall retry m loc w c loc' w',
    retryLoop env operation remaining retry m loc w = (Some c, loc', w') ->
    (exists rest, trace w' = EvAttempt (currentModelIndex w) m :: rest) /\
    match c with
    | Returned _ => True
    | Threw site _ => site = FromLastError
    end.
Proof.
  induction remaining as [|remaining IH]; intros retry m loc w c loc' w' H.
  - discriminate.
  - rewrite retryLoop_step in H.
    pose proof (callOperation_world (totalAttempts loc) m
                  (enforceRateLimit env w)) as (Hchain & Htrace & _).
    destruct (enforceRateLimit_sameChain env w) as (_ & _ & Hcursor).
    rewrite Hcursor in Htrace.
    destruct (fst (operation (totalAttempts loc) m)) as [result | error].
    + injection H as <- _ <-. split; [eauto | exact I].
    + cbv zeta in H. destruct (isRetryableError error).
      * apply IH in H. cbn [currentModelIndex sleep] in H.
        destruct Hchain as (_ & _ & Hc). now rewrite Hc, Hcursor in H.
      * injection H as <- _ <-. split; [eauto | reflexivity].
Qed.

(* ---------------------------------------------------------------- *)
(** ** The outer loop *)

Lemma getCurrentModel_sameChain (w w' : World) :
  sameChain w w' -> getCurrentModel w' = getCurrentModel w.
Proof.
  intros (Hp & Hf & Hc). unfold getCurrentModel. now rewrite Hp, Hf, Hc.
Qed.



Lemma getNextModel_cases (w : World) :
  getNextModel w = (None, w) \/
  exists next,
    getNextModel w
    = (Some next, set_currentModelIndex (currentModelIndex w + 1) w).
Proof.
  destruct (Nat.lt_ge_cases (currentModelIndex w + 1) (chainLength w))
    as [Hlt | Hge].
  - right. destruct (getNextModel_advances w Hlt) as (next & H & _). eauto.
  - left. apply getNextModel_exhausted. lia.
Qed.

Lemma modelLoop_step (remaining : nat) (loc : Locals) (w : World)
    (m : GenerativeModel) (loc1 : Locals) (w1 : World) :
  getCurrentModel w = inr m ->
  retryLoop env operation (maxRetries RETRY_CONFIG) 0 m loc w
  = (None, loc1, w1) ->
  modelLoop env operation (S remaining) loc w =
  match getNextModel w1 with
  | (None, w2) => (None, loc1, w2)
  | (Some _, w2) =>
      modelLoop env operation remaining loc1
                (sleep env ModelSwitchWait 2000 w2)
  end.
Proof. intros Hm Hretry. cbn [modelLoop]. now rewrite Hm, Hretry. Qed.



(** When the outer loop leaves the function, the chain is as before
    except that the cursor may have moved forward; a value is returned
    right after an invocation on the backend the cursor ends on. *)
Lemma modelLoop_Some (remaining : nat) :
  forall loc w c loc' w',
    modelLoop env operation remaining loc w = (Some c, loc', w') ->
    primaryModel w' = primaryModel w /\
    fallbackModels w' = fallbackModels w /\
    (currentModelIndex w <= currentModelIndex w')%nat /\
    match c with
    | Returned _ =>
        exists m rest,
          getCurrentModel w' = inr m /\
          trace w' = EvAttempt (currentModelIndex w') m :: rest
    | Threw site _ => site <> FromExhausted
    end.
Proof.
  induction remaining as [|remaining IH]; intros loc w c loc' w' H;
    [discriminate|].
  destruct (getCurrentModel w) as [e | m] eqn:Hm.
  { cbn [modelLoop] in H. rewrite Hm in H. injection H as <- _ <-.
    repeat split; auto. discriminate. }
  destruct (retryLoop env operation (maxRetries RETRY_CONFIG) 0 m loc w)
    as [[[c1|] loc1] w1] eqn:Hretry.
  - cbn [modelLoop] in H. rewrite Hm, Hretry in H. injection H as <- _ <-.
    pose proof (retryLoop_sameChain (maxRetries RETRY_CONFIG) 0 m loc w)
      as Hsame.
    rewrite Hretry in Hsame. cbn [snd] in Hsame.
    pose proof (getCurrentModel_sameChain _ _ Hsame) as Hcur.
    destruct Hsame as (Hp1 & Hf1 & Hc1).
    apply retryLoop_Some in Hretry. destruct Hretry as ((rest & Ht) & Hc).
    split; [exact Hp1|]. split; [exact Hf1|]. split; [lia|].
    destruct c1 as [result | site e].
    + exists m, rest. rewrite Hcur, Hc1. auto.
    + rewrite Hc. discriminate.
  - rewrite (modelLoop_step _ _ _ _ _ _ Hm Hretry) in H.
    pose proof (retryLoop_sameChain (maxRetries RETRY_CONFIG) 0 m loc w)
      as Hsame.
    rewrite Hretry in Hsame. cbn [snd] in Hsame.
    destruct Hsame as (Hp1 & Hf1 & Hc1).
    destruct (getNextModel_cases w1) as [Hnone | (next & Hnext)].
    + rewrite Hnone in H. discriminate.
    + rewrite Hnext in H. apply IH in H.
      cbn [sleep set_currentModelIndex currentModelIndex
           fallbackModels primaryModel] in H.
      destruct H as (Hp & Hf & Hc & Hres).
      split; [congruence|]. split; [congruence|]. split; [lia|].
      exact Hres.
Qed.


(** A first invocation rejected with an error that is not retryable
    ends the call at once. *)
Lemma executeWithRetry_first_fatal (operationName : string) (w : World)
    (m : GenerativeModel) (error : Thrown) (took : nat) :
  getCurrentModel w = inr m ->
  operation 0%nat m = (Rejected error, took) ->
  isRetryableError error = false ->
  let w1 := enforceRateLimit env w in
  let w' := snd (executeWithRetry env operation operationName w) in
  fst (executeWithRetry env operation operationName w)
  = Threw FromLastError (asError error) /\
  trace w' = EvAttempt (currentModelIndex w) m :: trace w1 /\
  clock w' = (clock w1 + Z.of_nat took)%Z /\
  sameChain w w' /\
  getCurrentModel w' = inr m /\
  attempts (trace w') = (attempts (trace w) + 1)%nat /\
  sleepsAt BackoffWait (trace w') = sleepsAt BackoffWait (trace w) /\
  sleepsAt ModelSwitchWait (trace w') = sleepsAt ModelSwitchWait (trace w).
Proof.
  intros Hm Hop Hfatal w1 w'.
  assert (Hrun : executeWithRetry env operation operationName w
                 = (Threw FromLastError (asError error),
                    snd (callOperation operation 0 m w1))).
  { unfold executeWithRetry. rewrite Nat.add_1_r. cbn [modelLoop].
    rewrite Hm. change (maxRetries RETRY_CONFIG) with 3%nat.
    rewrite retryLoop_step. cbn [totalAttempts].
    rewrite Hop. cbn [fst]. cbv zeta. rewrite Hfatal. reflexivity. }
  subst w'. rewrite Hrun. cbn [fst snd].
  pose proof (callOperation_world 0 m w1) as (Hchain & Htrace & _).
  pose proof (enforceRateLimit_sameChain env w) as Hchain1. fold w1 in Hchain1.
  pose proof (sameChain_trans _ _ _ Hchain1 Hchain) as Hsame.
  destruct (enforceRateLimit_trace env w) as (_ & Hatt & Hback & Hswitch).
  fold w1 in Hatt, Hback, Hswitch.
  destruct Hchain1 as (_ & _ & Hcursor).
  split; [reflexivity|]. split; [now rewrite Htrace, Hcursor|].
  split; [unfold callOperation; now rewrite Hop|].
  split; [exact Hsame|].
  split; [now rewrite (getCurrentModel_sameChain _ _ Hsame)|].
  rewrite Htrace, attempts_cons, !sleepsAt_cons. cbn [isAttempt isSleepAt].
  rewrite Hatt, Hback, Hswitch. repeat split; lia.
Qed.

End OrchestratorFacts.

(* ------------------------------------------------------------------ *)
(** ** Execution with retry and fallback: whole calls *)








(** C3. When the first invocation is rejected with an error that is not
    retryable, [executeWithRetry] throws that error (the same object when
    it is an [Error]) after this one invocation: no backoff sleep, no
    model-switch sleep, no second invocation, and the chain, cursor
    included, is as before the call. *)
Theorem executeWithRetry_fatal_first_attempt (T : Type) (env : Env)
    (operation : Operation T) (operationName : string) (w : World)
    (m : GenerativeModel) (error : Thrown) (took : nat) :
  getCurrentModel w = inr m ->
  operation 0%nat m = (Rejected error, took) ->
  isRetryableError error = false ->
  let w' := snd (executeWithRetry env operation operationName w) in
  fst (executeWithRetry env operation operationName w)
  = Threw FromLastError (asError error) /\
  (forall e, error = ErrorObject e -> asError error = e) /\
  attempts (trace w') = (attempts (trace w) + 1)%nat /\
  sleepsAt BackoffWait (trace w') = sleepsAt BackoffWait (trace w) /\
  sleepsAt ModelSwitchWait (trace w') = sleepsAt ModelSwitchWait (trace w) /\
  currentModelIndex w' = currentModelIndex w /\
  getCurrentModel w' = inr m /\
  (currentModelIndex w = O -> primaryModel w' = Some m).
Proof.
  intros Hm Hop Hfatal w'.
  destruct (executeWithRetry_first_fatal T env operation operationName w m
              error took Hm Hop Hfatal)
    as (Hthrow & _ & _ & Hsame & Hcur & Hatt & Hback & Hswitch).
  fold w' in Hsame, Hcur, Hatt, Hback, Hswitch.
  destruct Hsame as (Hp & _ & Hc).
  split; [exact Hthrow|]. split; [now intros e ->|].
  split; [exact Hatt|]. split; [exact Hback|]. split; [exact Hswitch|].
  split; [exact Hc|]. split; [exact Hcur|].
  intros Hzero. rewrite Hp. unfold getCurrentModel in Hm.
  rewrite Hzero in Hm. cbn [Nat.eqb] in Hm.
  destruct (primaryModel w); congruence.
Qed.

Lemma executeWithRetry_fatal_first_attempt_witness :
  fst (executeWithRetry promptTimers
         (rejectsWith (ErrorObject (mkError "permission denied")))
         "generateWithText" (initializedWorld 0))
  = Threw FromLastError (mkError "permission denied") /\
  currentModelIndex
    (snd (executeWithRetry promptTimers
            (rejectsWith (ErrorObject (mkError "permission denied")))
            "generateWithText" (initializedWorld 0))) = O.
Proof.
  destruct (executeWithRetry_fatal_first_attempt string promptTimers
              (rejectsWith (ErrorObject (mkError "permission denied")))
              "generateWithText" (initializedWorld 0)
              (mkModel "gemini-2.5-pro")
              (ErrorObject (mkError "permission denied")) 10
              eq_refl eq_refl eq_refl)
    as (Hthrow & _ & _ & _ & _ & Hcursor & _).
  split; [exact Hthrow | exact Hcursor].
Defined.



(** C8. When [executeWithRetry] returns a value, the cursor is where it
    was when the successful invocation was made: the call does not reset
    it.  The cursor never moves backwards during such a call, so a call
    that starts on a fallback backend ends on a fallback backend; and
    when the first invocation succeeds the cursor is exactly as
    before. *)
Theorem executeWithRetry_success_keeps_cursor (T : Type) (env : Env)
    (operation : Operation T) (operationName : string) (w : World)
    (result : T) (w' : World) :
  executeWithRetry env operation operationName w = (Returned result, w') ->
  (exists m rest,
     getCurrentModel w' = inr m /\
     trace w' = EvAttempt (currentModelIndex w') m :: rest) /\
  (currentModelIndex w <= currentModelIndex w')%nat /\
  ((0 < currentModelIndex w)%nat -> (0 < currentModelIndex w')%nat) /\
  primaryModel w' = primaryModel w /\
  fallbackModels w' = fallbackModels w /\
  (forall m first took,
     getCurrentModel w = inr m ->
     operation 0%nat m = (Fulfilled first, took) ->
     currentModelIndex w' = currentModelIndex w).
Proof.
  intros Hrun.
  assert (Hfacts :
    primaryModel w' = primaryModel w /\
    fallbackModels w' = fallbackModels w /\
    (currentModelIndex w <= currentModelIndex w')%nat /\
    exists m rest,
      getCurrentModel w' = inr m /\
      trace w' = EvAttempt (currentModelIndex w') m :: rest).
  { unfold executeWithRetry in Hrun.
    destruct (modelLoop env operation (List.length (fallbackModels w) + 1)
                (mkLocals None 0) w) as [[[c|] loc] w1] eqn:Hloop;
      [|discriminate].
    injection Hrun as -> ->.
    apply modelLoop_Some in Hloop. exact Hloop. }
  destruct Hfacts as (Hp & Hf & Hle & Hlast).
  split; [exact Hlast|]. split; [exact Hle|]. split; [lia|].
  split; [exact Hp|]. split; [exact Hf|].
  intros m first took Hm Hop.
  assert (Hfirst : executeWithRetry env operation operationName w
                   = (Returned first,
                      snd (callOperation operation 0 m
                             (enforceRateLimit env w)))).
  { unfold executeWithRetry. rewrite Nat.add_1_r. cbn [modelLoop].
    rewrite Hm. change (maxRetries RETRY_CONFIG) with 3%nat.
    rewrite retryLoop_step. cbn [totalAttempts].
    rewrite Hop. reflexivity. }
  rewrite Hfirst in Hrun. injection Hrun as _ <-.
  destruct (callOperation_world T operation 0 m (enforceRateLimit env w))
    as ((_ & _ & Hc2) & _).
  destruct (enforceRateLimit_sameChain env w) as (_ & _ & Hc1).
  congruence.
Qed.

Lemma executeWithRetry_success_keeps_cursor_witness :
  currentModelIndex
    (snd (executeWithRetry promptTimers failsOnPrimary "generateWithText"
            fallbackWorld)) = 1%nat.
Proof.
  destruct (executeWithRetry promptTimers failsOnPrimary "generateWithText"
              fallbackWorld) as [c w'] eqn:Hrun.
  assert (Hc : c = Returned "OK"%string).
  { vm_compute in Hrun. now injection Hrun as <- _. }
  subst c.
  destruct (executeWithRetry_success_keeps_cursor string promptTimers
              failsOnPrimary "generateWithText" fallbackWorld
              "OK"%string w' Hrun)
    as (_ & _ & _ & _ & _ & Hsame).
  cbn [snd]. apply (Hsame (mkModel "gemini-2.5-flash") "OK"%string 10%nat);
    reflexivity.
Defined.

(* ------------------------------------------------------------------ *)
(** ** JSON extraction *)

Module RegexFacts.

Import JsString JsStringFacts Regex.
Open Scope string_scope.

Lemma includes_cons (c : ascii) (s sub : string) :
  includes (String c s) sub = startsWith sub (String c s) || includes s sub.
Proof. reflexivity. Qed.

Lemma includes_unit (c x : ascii) (s : string) :
  includes (String c s) (String x "") = Ascii.eqb x c || includes s (String x "").
Proof. rewrite includes_cons. simpl. now rewrite andb_true_r. Qed.






Lemma upToFence_None (s : string) :
  includes s fence = false -> upToFence s = None.
Proof.
  induction s as [|c s IH]; intros H.
  - reflexivity.
  - rewrite includes_cons in H. apply orb_false_iff in H as [H1 H2].
    cbn [upToFence]. rewrite H1. now rewrite IH.
Qed.









End RegexFacts.



(** The second tier is greedy: with two objects in the text it takes the
    span from the first opening brace to the last closing brace, which is
    not one object. *)
Example extractJson_two_objects :
  extractJson Json.parse twoObjectsSample = ThrewSyntaxError /\
  Spec.extract Json.parse twoObjectsSample
  = Some (Json.Object [("a"%string, Json.Number 1)]).
Proof. split; vm_compute; reflexivity. Qed.



(* ================================================================== *)
(** * Further properties of the service *)

(* ------------------------------------------------------------------ *)
(** ** Classifier and backoff *)

(** X1. The classifier looks for keywords anywhere in the message: text
    added before or after a retryable message leaves it retryable. *)
Theorem isRetryableError_embedding (e : JsError) (before after : string) :
  isRetryableError (ErrorObject e) = true ->
  isRetryableError
    (ErrorObject (mkError (before ++ message e ++ after))) = true.
Proof.
  rewrite !isRetryableError_existsb, !existsb_exists. cbn [message].
  intros (keyword & Hin & Hfound). exists keyword. split; [exact Hin|].
  apply JsStringFacts.includes_iff in Hfound.
  destruct Hfound as (pre & post & Hsplit).
  apply JsStringFacts.includes_iff.
  exists (JsString.toLowerCase before ++ pre)%string,
         (post ++ JsString.toLowerCase after)%string.
  rewrite !JsStringFacts.toLowerCase_app, Hsplit.
  now rewrite !JsStringFacts.append_assoc.
Qed.

Lemma isRetryableError_embedding_witness :
  isRetryableError
    (ErrorObject
       (mkError ("invalid argument: " ++ "Network ID" ++ " is malformed")))
  = true.
Proof.
  apply (isRetryableError_embedding (mkError "Network ID")
           "invalid argument: " " is malformed").
  reflexivity.
Defined.




Lemma exponentialDelay_monotone (a1 a2 : nat) :
  (a1 <= a2)%nat -> exponentialDelay a1 <= exponentialDelay a2.
Proof.
  intros H. unfold exponentialDelay.
  cbn [baseDelayMs backoffMultiplier RETRY_CONFIG].
  apply Qmult_le_l; [reflexivity|].
  apply Qpower_le_compat_l; [lia | discriminate].
Qed.



(* ------------------------------------------------------------------ *)
(** ** Rate limiter and chain *)



(** X5. Before initialisation [getCurrentModel] throws; afterwards it
    always returns a backend of the chain: the one at the cursor when the
    cursor is inside the chain, and the primary when the cursor is past
    the end. *)
Theorem getCurrentModel_member (w : World) :
  (primaryModel w = None -> getCurrentModel w = inl notInitializedError) /\
  (forall primary,
     primaryModel w = Some primary ->
     exists m,
       getCurrentModel w = inr m /\
       (m = primary \/ In m (fallbackModels w)) /\
       ((currentModelIndex w < chainLength w)%nat ->
        backendAt w (currentModelIndex w) = Some m) /\
       ((chainLength w <= currentModelIndex w)%nat -> m = primary)).
Proof.
  unfold getCurrentModel, chainLength, backendAt. split.
  - now intros ->.
  - intros primary ->.
    destruct (currentModelIndex w) as [|i]; cbn [Nat.eqb Nat.sub].
    + exists primary. repeat split; auto.
    + rewrite Nat.sub_0_r.
      destruct (nth_error (fallbackModels w) i) as [m|] eqn:E.
      * exists m. split; [reflexivity|]. split; [|split].
        -- right. eapply nth_error_In. exact E.
        -- now intros _.
        -- intros H. assert (nth_error (fallbackModels w) i = None)
             by (apply nth_error_None; lia). congruence.
      * exists primary. split; [reflexivity|]. split; [now left|].
        split; [|reflexivity]. intros H. apply nth_error_None in E. lia.
Qed.

Lemma getCurrentModel_member_witness :
  getCurrentModel (set_currentModelIndex 9 (initializedWorld 0))
  = inr (mkModel "gemini-2.5-pro").
Proof.
  destruct (getCurrentModel_member
              (set_currentModelIndex 9 (initializedWorld 0))) as [_ H].
  destruct (H (mkModel "gemini-2.5-pro") eq_refl) as (m & Hm & _ & _ & Hpast).
  rewrite Hm. f_equal. apply Hpast. vm_compute. lia.
Defined.

(* ------------------------------------------------------------------ *)
(** ** Whole calls of [executeWithRetry], any outcome *)

Lemma getNextModel_keeps (w : World) :
  let w' := snd (getNextModel w) in
  primaryModel w' = primaryModel w /\
  fallbackModels w' = fallbackModels w /\
  ((currentModelIndex w < chainLength w)%nat ->
   (currentModelIndex w' < chainLength w)%nat) /\
  (currentModelIndex w <= currentModelIndex w')%nat /\
  trace w' = trace w.
Proof.
  unfold getNextModel, chainLength.
  destruct (Nat.ltb_spec (currentModelIndex w) (List.length (fallbackModels w)));
    simpl; repeat split; auto; lia.
Qed.

Section OrchestratorBounds.

Variable T : Type.
Variable env : Env.
Variable operation : Operation T.

Lemma modelLoop_keeps_chain (remaining : nat) :
  forall loc w,
    let w' := snd (modelLoop env operation remaining loc w) in
    primaryModel w' = primaryModel w /\
    fallbackModels w' = fallbackModels w /\
    ((currentModelIndex w < chainLength w)%nat ->
     (currentModelIndex w' < chainLength w)%nat) /\
    (currentModelIndex w <= currentModelIndex w')%nat.
Proof.
  induction remaining as [|remaining IH]; intros loc w; cbn [modelLoop].
  - simpl. auto.
  - destruct (getCurrentModel w) as [e | m]; [simpl; auto|].
    pose proof (retryLoop_sameChain T env operation
                  (maxRetries RETRY_CONFIG) 0 m loc w) as Hsame.
    destruct (retryLoop env operation (maxRetries RETRY_CONFIG) 0 m loc w)
      as [[[c|] loc1] w1].
    + cbn [snd] in *. destruct Hsame as (Hp & Hf & Hc).
      rewrite Hp, Hf, Hc. auto.
    + cbn [snd] in Hsame. destruct Hsame as (Hp & Hf & Hc).
      pose proof (getNextModel_keeps w1) as Hnext.
      destruct (getNextModel w1) as [[next|] w2]; cbn [snd] in Hnext |- *;
        destruct Hnext as (Hp2 & Hf2 & Hv2 & Hle2 & _).
      * specialize (IH loc1 (sleep env ModelSwitchWait 2000 w2)).
        cbv zeta in IH.
        change (chainLength (sleep env ModelSwitchWait 2000 w2))
          with (chainLength w2) in IH.
        cbn [sleep primaryModel fallbackModels currentModelIndex] in IH.
        destruct IH as (Hp3 & Hf3 & Hv3 & Hle3).
        assert (Hlen : chainLength w2 = chainLength w)
          by (unfold chainLength; congruence).
        assert (Hlen1 : chainLength w1 = chainLength w)
          by (unfold chainLength; congruence).
        rewrite Hlen in Hv3. rewrite Hlen1 in Hv2.
        split; [congruence|]. split; [congruence|]. split; [|lia].
        intros Hv. apply Hv3, Hv2. lia.
      * assert (Hlen1 : chainLength w1 = chainLength w)
          by (unfold chainLength; congruence).
        rewrite Hlen1 in Hv2.
        split; [congruence|]. split; [congruence|]. split; [|lia].
        intros Hv. apply Hv2. lia.
Qed.

(** X6. Before initialisation [executeWithRetry] throws the
    not-initialised error at once: no rate-limit wait, no invocation, and
    the world is unchanged. *)
Theorem executeWithRetry_uninitialized (operationName : string) (w : World) :
  primaryModel w = None ->
  executeWithRetry env operation operationName w
  = (Threw FromGetCurrentModel notInitializedError, w).
Proof.
  intros H. unfold executeWithRetry. rewrite Nat.add_1_r. cbn [modelLoop].
  unfold getCurrentModel. now rewrite H.
Qed.

(** X7. Whatever its outcome, [executeWithRetry] leaves the model
    handles as they are and keeps the cursor inside the chain. *)
Theorem executeWithRetry_keeps_chain (operationName : string) (w : World) :
  let w' := snd (executeWithRetry env operation operationName w) in
  primaryModel w' = primaryModel w /\
  fallbackModels w' = fallbackModels w /\
  ((currentModelIndex w < chainLength w)%nat ->
   (currentModelIndex w' < chainLength w')%nat).
Proof.
  unfold executeWithRetry.
  pose proof (modelLoop_keeps_chain (List.length (fallbackModels w) + 1)
                (mkLocals None 0) w) as H.
  destruct (modelLoop env operation (List.length (fallbackModels w) + 1)
              (mkLocals None 0) w) as [[[c|] loc] w1];
    cbn [snd] in *; destruct H as (Hp & Hf & Hv & _).
  - split; [exact Hp|]. split; [exact Hf|].
    unfold chainLength in *. rewrite Hf. exact Hv.
  - cbn [resetToMainModel set_currentModelIndex primaryModel fallbackModels
         currentModelIndex].
    split; [exact Hp|]. split; [exact Hf|].
    intros _. unfold chainLength. cbn [fallbackModels]. lia.
Qed.




End OrchestratorBounds.


Lemma executeWithRetry_uninitialized_witness :
  fst (executeWithRetry promptTimers always503 "generateWithText"
         (snd (initializeGemini promptTimers false always503
                 (initializedWorld 0))))
  = Threw FromGetCurrentModel notInitializedError.
Proof.
  rewrite (executeWithRetry_uninitialized string promptTimers always503
             "generateWithText"); reflexivity.
Defined.

Lemma executeWithRetry_keeps_chain_witness :
  (currentModelIndex
     (snd (executeWithRetry promptTimers failsOnPrimary "generateWithText"
             (initializedWorld 0))) < 4)%nat.
Proof.
  destruct (executeWithRetry_keeps_chain string promptTimers failsOnPrimary
              "generateWithText" (initializedWorld 0)) as (_ & Hf & H).
  assert (Hv : (currentModelIndex (initializedWorld 0)
                < chainLength (initializedWorld 0))%nat) by (vm_compute; lia).
  specialize (H Hv). unfold chainLength in H. rewrite Hf in H. exact H.
Defined.

(* ------------------------------------------------------------------ *)
(** ** Exhaustion message and fallback *)

Lemma exponentialDelay_at_least_base (attempt : nat) :
  1000 <= exponentialDelay attempt.
Proof.
  pose proof (exponentialDelay_monotone 0 attempt (Nat.le_0_l _)) as H.
  exact H.
Qed.

Lemma calculateBackoffDelay_floor (random : Q) (attempt : nat) :
  0 <= random -> (1000 <= Qfloor (calculateBackoffDelay random attempt))%Z.
Proof.
  intros H0. change 1000%Z with (Qfloor (inject_Z 1000)).
  apply Qfloor_resp_le.
  unfold calculateBackoffDelay. fold (exponentialDelay attempt).
  pose proof (exponentialDelay_at_least_base attempt) as Hb.
  apply Q.min_glb; [|discriminate].
  assert (0 <= random * (3 # 10) * exponentialDelay attempt) by nra.
  change (inject_Z 1000) with 1000. lra.
Qed.

Section OrchestratorRuns.

Variable T : Type.
Variable env : Env.
Variable operation : Operation T.




Lemma retryLoop_prefix_retryable (remaining : nat) :
  forall retry m loc w,
    (forall k, (k < remaining)%nat ->
       exists error took,
         operation (totalAttempts loc + k)%nat m = (Rejected error, took) /\
         isRetryableError error = true) ->
    fst (fst (retryLoop env operation remaining retry m loc w)) = None.
Proof.
  induction remaining as [|remaining IH]; intros retry m loc w Hall.
  - reflexivity.
  - rewrite retryLoop_step.
    destruct (Hall 0%nat) as (error & took & Hop & Hretry); [lia|].
    rewrite Nat.add_0_r in Hop. rewrite Hop. cbn [fst]. cbv zeta.
    rewrite Hretry. apply IH. cbn [totalAttempts].
    intros k Hk. destruct (Hall (S k)) as (err & tk & Ho & Hr); [lia|].
    exists err, tk. split; [|exact Hr].
    now replace (totalAttempts loc + 1 + k)%nat
      with (totalAttempts loc + S k)%nat by lia.
Qed.

(** While the inner loop runs to its end it sleeps once per invocation,
    each time for at least a second. *)
Lemma retryLoop_None_sleeps (remaining : nat) :
  forall retry m loc w loc' w',
    retryLoop env operation remaining retry m loc w = (None, loc', w') ->
    sleepsAt BackoffWait (trace w')
    = (sleepsAt BackoffWait (trace w) + remaining)%nat /\
    sleepsAt ModelSwitchWait (trace w') = sleepsAt ModelSwitchWait (trace w) /\
    ((forall k, 0 <= mathRandom env k) ->
     (clock w + 1000 * Z.of_nat remaining <= clock w')%Z).
Proof.
  induction remaining as [|remaining IH]; intros retry m loc w loc' w' H.
  - simpl in H. injection H as _ <-. repeat split; try lia.
  - rewrite retryLoop_step in H.
    pose proof (callOperation_world T operation (totalAttempts loc) m
                  (enforceRateLimit env w)) as (_ & Htrace & _).
    destruct (enforceRateLimit_trace env w) as (_ & _ & Hback & Hswitch).
    destruct (enforceRateLimit_spacing env w) as (_ & Hclock).
    assert (Hcall : (clock (enforceRateLimit env w)
                     <= clock (snd (callOperation operation (totalAttempts loc)
                                      m (enforceRateLimit env w))))%Z).
    { unfold callOperation.
      destruct (operation (totalAttempts loc) m) as [settled took].
      cbn [snd clock]. lia. }
    destruct (fst (operation (totalAttempts loc) m)) as [result | error];
      [discriminate|].
    cbv zeta in H. destruct (isRetryableError error); [|discriminate].
    apply IH in H. destruct H as (Hb & Hs & Hc).
    cbn [sleep trace] in Hb, Hs. rewrite sleepsAt_cons in Hb, Hs.
    cbn [isSleepAt] in Hb, Hs. rewrite Htrace, sleepsAt_cons in Hb, Hs.
    cbn [isSleepAt] in Hb, Hs.
    split; [lia|]. split; [lia|].
    intros Hrandom. specialize (Hc Hrandom).
    cbn [sleep clock] in Hc.
    match type of Hc with
    | context [Qfloor (calculateBackoffDelay ?u ?a)] =>
        pose proof (calculateBackoffDelay_floor u a (Hrandom _)) as Hfloor
    end.
    lia.
Qed.

(** X10. Fallback.  When the backend at the cursor rejects all its
    [maxRetries] invocations with retryable errors and the next backend
    then answers, [executeWithRetry] returns that answer with the cursor
    on the next backend; it has slept once per rejection and once before
    the switch, which, when [Math.random] is never negative, takes at
    least [1000 * maxRetries + 2000] ms. *)
Theorem executeWithRetry_falls_back (operationName : string) (w : World)
    (m m' : GenerativeModel) (result : T) (took' : nat) :
  getCurrentModel w = inr m ->
  (currentModelIndex w + 1 < chainLength w)%nat ->
  backendAt w (currentModelIndex w + 1) = Some m' ->
  (forall k, (k < maxRetries RETRY_CONFIG)%nat ->
     exists error took,
       operation k m = (Rejected error, took) /\
       isRetryableError error = true) ->
  operation (maxRetries RETRY_CONFIG) m' = (Fulfilled result, took') ->
  let w' := snd (executeWithRetry env operation operationName w) in
  fst (executeWithRetry env operation operationName w) = Returned result /\
  currentModelIndex w' = (currentModelIndex w + 1)%nat /\
  getCurrentModel w' = inr m' /\
  sleepsAt BackoffWait (trace w')
  = (sleepsAt BackoffWait (trace w) + maxRetries RETRY_CONFIG)%nat /\
  sleepsAt ModelSwitchWait (trace w')
  = (sleepsAt ModelSwitchWait (trace w) + 1)%nat /\
  attemptsOn (currentModelIndex w) (trace w')
  = (attemptsOn (currentModelIndex w) (trace w) + maxRetries RETRY_CONFIG)%nat /\
  attemptsOn (currentModelIndex w + 1) (trace w')
  = (attemptsOn (currentModelIndex w + 1) (trace w) + 1)%nat /\
  ((forall k, 0 <= mathRandom env k) ->
   (clock w + 1000 * Z.of_nat (maxRetries RETRY_CONFIG) + 2000
    <= clock w')%Z).
Proof.
  intros Hm Hmore Hnext Hfail Hok.
  assert (Hinit : primaryModel w <> None).
  { unfold getCurrentModel in Hm. destruct (primaryModel w); congruence. }
  pose proof (retryLoop_prefix_retryable (maxRetries RETRY_CONFIG) 0 m
                (mkLocals None 0) w Hfail) as Hnone.
  pose proof (retryLoop_sameChain T env operation (maxRetries RETRY_CONFIG)
                0 m (mkLocals None 0) w) as Hsame.
  destruct (retryLoop env operation (maxRetries RETRY_CONFIG) 0 m
              (mkLocals None 0) w) as [[o loc1] w1] eqn:Hretry.
  cbn [fst snd] in Hnone, Hsame. subst o.
  destruct Hsame as (Hp1 & Hf1 & Hc1).
  assert (Hlen1 : chainLength w1 = chainLength w)
    by (unfold chainLength; now rewrite Hf1).
  pose proof (retryLoop_None T env operation _ _ _ _ _ _ _ Hretry)
    as (Htotal1 & Hcount1 & _).
  pose proof (retryLoop_None_sleeps _ _ _ _ _ _ _ Hretry)
    as (Hback1 & Hswitch1 & Hclock1).
  cbn [totalAttempts Nat.add] in Htotal1.
  destruct (getNextModel_advances w1) as (next & Hadv & Hat);
    [rewrite Hc1, Hlen1; exact Hmore|].
  assert (next = m').
  { unfold backendAt in Hat, Hnext. rewrite Hc1 in Hat.
    destruct (currentModelIndex w + 1)%nat; congruence. }
  subst next.
  set (wS := sleep env ModelSwitchWait 2000
               (set_currentModelIndex (currentModelIndex w1 + 1) w1)) in *.
  assert (HmS : getCurrentModel wS = inr m').
  { apply getCurrentModel_backendAt.
    - subst wS. cbn [sleep set_currentModelIndex primaryModel]. congruence.
    - subst wS. unfold backendAt in *.
      cbn [sleep set_currentModelIndex primaryModel fallbackModels
           currentModelIndex].
      rewrite Hc1, Hp1, Hf1. exact Hnext. }
  set (w2 := snd (callOperation operation (maxRetries RETRY_CONFIG) m'
                    (enforceRateLimit env wS))).
  assert (Hrun : executeWithRetry env operation operationName w
                 = (Returned result, w2)).
  { unfold executeWithRetry. rewrite Nat.add_1_r.
    rewrite (modelLoop_step T env operation _ _ _ _ _ _ Hm Hretry), Hadv.
    fold wS.
    destruct (List.length (fallbackModels w)) as [|len] eqn:Hlen;
      [unfold chainLength in Hmore; lia|].
    cbn [modelLoop]. rewrite HmS.
    change (maxRetries RETRY_CONFIG) with 3%nat in *.
    rewrite retryLoop_step, Htotal1, Hok. reflexivity. }
  rewrite Hrun. cbn [fst snd].
  pose proof (callOperation_world T operation (maxRetries RETRY_CONFIG) m'
                (enforceRateLimit env wS)) as (Hchain2 & Htrace2 & _).
  fold w2 in Hchain2, Htrace2.
  pose proof (enforceRateLimit_sameChain env wS) as HchainS.
  pose proof (sameChain_trans _ _ _ HchainS Hchain2) as HsameS.
  destruct (enforceRateLimit_trace env wS) as (HonS & _ & HbackS & HswitchS).
  destruct (enforceRateLimit_spacing env wS) as (_ & HclockS).
  destruct HchainS as (_ & _ & HcS).
  assert (HcwS : currentModelIndex wS = (currentModelIndex w + 1)%nat)
    by (subst wS; cbn [sleep set_currentModelIndex currentModelIndex]; lia).
  split; [reflexivity|].
  split; [destruct HsameS as (_ & _ & ->); exact HcwS|].
  split; [now rewrite (getCurrentModel_sameChain _ _ HsameS)|].
  rewrite Htrace2, !sleepsAt_cons, !attemptsOn_cons.
  cbn [isSleepAt isAttemptOn]. rewrite HbackS, HswitchS, !HonS, HcS, HcwS.
  subst wS. cbn [sleep set_currentModelIndex trace].
  rewrite !sleepsAt_cons, !attemptsOn_cons.
  cbn [isSleepAt isAttemptOn]. rewrite Hback1, Hswitch1, !Hcount1.
  rewrite !Nat.eqb_refl.
  replace (currentModelIndex w + 1 =? currentModelIndex w)%nat with false
    by (symmetry; apply Nat.eqb_neq; lia).
  replace (currentModelIndex w =? currentModelIndex w + 1)%nat with false
    by (symmetry; apply Nat.eqb_neq; lia).
  split; [lia|]. split; [lia|]. split; [lia|]. split; [lia|].
  intros Hrandom. specialize (Hclock1 Hrandom).
  assert (Hcall : (clock (enforceRateLimit env
                            (sleep env ModelSwitchWait 2000
                               (set_currentModelIndex
                                  (currentModelIndex w1 + 1) w1)))
                   <= clock w2)%Z).
  { subst w2. unfold callOperation.
    destruct (operation (maxRetries RETRY_CONFIG) m') as [settled took].
    cbn [snd clock]. lia. }
  cbn [sleep set_currentModelIndex clock] in HclockS.
  change (Qfloor 2000) with 2000%Z in HclockS. lia.
Qed.

End OrchestratorRuns.


Lemma failsOnPrimary_rejects (k : nat) :
  (k < maxRetries RETRY_CONFIG)%nat ->
  exists error took,
    failsOnPrimary k (mkModel "gemini-2.5-pro") = (Rejected error, took) /\
    isRetryableError error = true.
Proof. intros _. eexists _, _. split; reflexivity. Qed.

Lemma executeWithRetry_falls_back_witness :
  fst (executeWithRetry promptTimers failsOnPrimary "generateWithText"
         (initializedWorld 0)) = Returned "OK"%string /\
  currentModelIndex
    (snd (executeWithRetry promptTimers failsOnPrimary "generateWithText"
            (initializedWorld 0))) = 1%nat.
Proof.
  destruct (executeWithRetry_falls_back string promptTimers failsOnPrimary
              "generateWithText" (initializedWorld 0)
              (mkModel "gemini-2.5-pro") (mkModel "gemini-2.5-flash")
              "OK"%string 10%nat eq_refl)
    as (Hres & Hcursor & _).
  - vm_compute. lia.
  - reflexivity.
  - exact failsOnPrimary_rejects.
  - reflexivity.
  - split; [exact Hres | exact Hcursor].
Defined.

(* ------------------------------------------------------------------ *)
(** ** Initialisation and model information *)

Lemma builtFromModelChain_testModel (w : World) (i : nat) :
  builtFromModelChain w ->
  (if (i =? 0)%nat then primaryModel w
   else nth_error (fallbackModels w) (i - 1))
  = option_map mkModel (nth_error MODEL_CHAIN i).
Proof.
  intros [Hp Hf]. rewrite Hp, Hf.
  do 4 (destruct i as [|i]; [reflexivity|]).
  destruct i; reflexivity.
Qed.

Lemma builtFromModelChain_same (w w' : World) :
  primaryModel w' = primaryModel w ->
  fallbackModels w' = fallbackModels w ->
  builtFromModelChain w -> builtFromModelChain w'.
Proof. unfold builtFromModelChain. intros -> ->. auto. Qed.

Lemma validateLoop_spec (env : Env) (probe : Operation string)
    (remaining : nat) :
  forall i w,
    builtFromModelChain w ->
    (i + remaining <= List.length MODEL_CHAIN)%nat ->
    let r := validateLoop env probe remaining i w in
    builtFromModelChain (snd r) /\
    (fst r = true ->
     (i <= currentModelIndex (snd r) < i + remaining)%nat /\
     answersOk probe (currentModelIndex (snd r)) = true /\
     forall j, (i <= j < currentModelIndex (snd r))%nat ->
               answersOk probe j = false) /\
    (fst r = false ->
     currentModelIndex (snd r) = currentModelIndex w /\
     forall j, (i <= j < i + remaining)%nat -> answersOk probe j = false).
Proof.
  induction remaining as [|remaining IH]; intros i w Hbuilt Hrange.
  - cbn. split; [exact Hbuilt|]. split; [discriminate|].
    intros _. split; [reflexivity|]. intros j Hj. lia.
  - cbv zeta. cbn [validateLoop].
    rewrite (builtFromModelChain_testModel w i Hbuilt).
    destruct (nth_error MODEL_CHAIN i) as [chosen|] eqn:Hchosen.
    2:{ apply nth_error_None in Hchosen. lia. }
    cbn [option_map].
    assert (Hok : answersOk probe i
                  = match fst (probe i (mkModel chosen)) with
                    | Fulfilled text =>
                        JsString.includes (JsString.toLowerCase text) "ok"
                    | Rejected _ => false
                    end)
      by (unfold answersOk; now rewrite Hchosen).
    assert (Hbuilt1 : forall took,
              builtFromModelChain (elapse took (enforceRateLimit env w))).
    { intros took. destruct (enforceRateLimit_sameChain env w) as (Hp & Hf & _).
      now apply (builtFromModelChain_same w). }
    assert (Hcursor1 : forall took,
              currentModelIndex (elapse took (enforceRateLimit env w))
              = currentModelIndex w).
    { intros took. now destruct (enforceRateLimit_sameChain env w) as (_ & _ & Hc). }
    assert (Hnext : forall w2,
              builtFromModelChain w2 ->
              currentModelIndex w2 = currentModelIndex w ->
              answersOk probe i = false ->
              let r := validateLoop env probe remaining (S i) w2 in
              builtFromModelChain (snd r) /\
              (fst r = true ->
               (i <= currentModelIndex (snd r) < i + S remaining)%nat /\
               answersOk probe (currentModelIndex (snd r)) = true /\
               forall j, (i <= j < currentModelIndex (snd r))%nat ->
                         answersOk probe j = false) /\
              (fst r = false ->
               currentModelIndex (snd r) = currentModelIndex w /\
               forall j, (i <= j < i + S remaining)%nat ->
                         answersOk probe j = false)).
    { intros w2 Hb2 Hc2 Hno r.
      destruct (IH (S i) w2 Hb2) as (Hb & Htrue & Hfalse); [lia|].
      fold r in Hb, Htrue, Hfalse.
      split; [exact Hb|]. split.
      - intros Hv. destruct (Htrue Hv) as (Hr & Ha & Hbefore).
        split; [lia|]. split; [exact Ha|].
        intros j Hj. destruct (Nat.eq_dec j i) as [-> | Hne]; [exact Hno|].
        apply Hbefore. lia.
      - intros Hv. destruct (Hfalse Hv) as (Hc & Hall).
        split; [congruence|].
        intros j Hj. destruct (Nat.eq_dec j i) as [-> | Hne]; [exact Hno|].
        apply Hall. lia. }
    destruct (probe i (mkModel chosen)) as [[text | error] took];
      cbn [fst] in Hok.
    + destruct (JsString.includes (JsString.toLowerCase text) "ok") eqn:Hincl.
      * cbn [fst snd set_currentModelIndex currentModelIndex].
        split.
        -- apply (builtFromModelChain_same
                    (elapse took (enforceRateLimit env w)));
             [reflexivity | reflexivity | apply Hbuilt1].
        -- split; [|discriminate]. intros _.
           split; [lia|]. split; [exact Hok|]. intros j Hj. lia.
      * apply Hnext; [apply Hbuilt1 | apply Hcursor1 | exact Hok].
    + apply Hnext; [| | exact Hok].
      * apply (builtFromModelChain_same (elapse took (enforceRateLimit env w)));
          [reflexivity | reflexivity | apply Hbuilt1].
      * unfold validationPause. cbn [elapse currentModelIndex].
        now destruct (enforceRateLimit_sameChain env w) as (_ & _ & Hc).
Qed.

(** X11. When the client can be built, [initializeGemini] returns [true]
    exactly when the probe of some model of [MODEL_CHAIN] answers with a
    text containing [ok], and then the cursor is on the first such
    model; when it returns [false] the handles stay in place with the
    cursor on the primary, so [isInitialized()] is [true] all the same.
    In both cases the current model is the handle named by
    [getCurrentModelInfo]. *)
Theorem initializeGemini_validates (env : Env) (probe : Operation string)
    (w : World) :
  let r := initializeGemini env true probe w in
  builtFromModelChain (snd r) /\
  isInitialized (snd r) = true /\
  (fst r = true <->
   exists j, (j < List.length MODEL_CHAIN)%nat /\ answersOk probe j = true) /\
  (fst r = true ->
   (currentModelIndex (snd r) < List.length MODEL_CHAIN)%nat /\
   answersOk probe (currentModelIndex (snd r)) = true /\
   forall j, (j < currentModelIndex (snd r))%nat -> answersOk probe j = false) /\
  (fst r = false -> currentModelIndex (snd r) = O) /\
  getCurrentModel (snd r)
  = inr (mkModel (name (getCurrentModelInfo (snd r)))).
Proof.
  intros r. subst r. unfold initializeGemini.
  match goal with
  | |- context [validateLoop env probe _ 0 ?w0] => set (start := w0)
  end.
  assert (Hstart : builtFromModelChain start) by (split; reflexivity).
  destruct (validateLoop_spec env probe (List.length MODEL_CHAIN) 0 start
              Hstart (Nat.le_refl _)) as (Hbuilt & Htrue & Hfalse).
  set (r := validateLoop env probe (List.length MODEL_CHAIN) 0 start) in *.
  assert (Hvalid : (currentModelIndex (snd r) < List.length MODEL_CHAIN)%nat).
  { destruct (fst r) eqn:Hv.
    - destruct (Htrue eq_refl) as (Hr & _). lia.
    - destruct (Hfalse eq_refl) as (-> & _). simpl. lia. }
  split; [exact Hbuilt|].
  split; [unfold isInitialized; destruct Hbuilt as [-> _]; reflexivity|].
  split; [|split; [|split]].
  - split.
    + intros Hv. destruct (Htrue Hv) as (Hr & Ha & _).
      exists (currentModelIndex (snd r)). split; [lia | exact Ha].
    + intros (j & Hj & Ha). destruct (fst r) eqn:Hv; [reflexivity|].
      destruct (Hfalse eq_refl) as (_ & Hall).
      rewrite Hall in Ha by lia. discriminate.
  - intros Hv. destruct (Htrue Hv) as (Hr & Ha & Hbefore).
    split; [lia|]. split; [exact Ha|]. intros j Hj. apply Hbefore. lia.
  - intros Hv. now destruct (Hfalse Hv) as (-> & _).
  - unfold getCurrentModel, getCurrentModelInfo. cbn [name].
    destruct Hbuilt as [-> ->].
    destruct (currentModelIndex (snd r)) as [|[|[|[|i]]]];
      try reflexivity.
    simpl in Hvalid. lia.
Qed.

Lemma initializeGemini_validates_witness :
  fst (initializeGemini promptTimers true failsOnPrimary (initializedWorld 0))
  = true /\
  currentModelIndex
    (snd (initializeGemini promptTimers true failsOnPrimary
            (initializedWorld 0))) = 1%nat.
Proof.
  destruct (initializeGemini_validates promptTimers failsOnPrimary
              (initializedWorld 0)) as (_ & _ & Hiff & Hfirst & _).
  assert (Hv : fst (initializeGemini promptTimers true failsOnPrimary
                      (initializedWorld 0)) = true).
  { apply Hiff. exists 1%nat. split; [simpl; lia | reflexivity]. }
  split; [exact Hv|].
  destruct (Hfirst Hv) as (_ & Hok & Hbefore).
  destruct (currentModelIndex
              (snd (initializeGemini promptTimers true failsOnPrimary
                      (initializedWorld 0)))) as [|[|i]].
  - discriminate Hok.
  - reflexivity.
  - specialize (Hbefore 1%nat ltac:(lia)). discriminate Hbefore.
Defined.

(** X12. On a chain built from [MODEL_CHAIN], [getCurrentModelInfo]
    reports the cursor, the chain length as total and, while the cursor
    is inside the chain, the name of the very model [getCurrentModel]
    returns; past the end it reports [unknown] although
    [getCurrentModel] falls back to the primary. *)
Theorem getCurrentModelInfo_consistent (w : World) :
  builtFromModelChain w ->
  total (getCurrentModelInfo w) = chainLength w /\
  index (getCurrentModelInfo w) = currentModelIndex w /\
  ((currentModelIndex w < chainLength w)%nat ->
   getCurrentModel w = inr (mkModel (name (getCurrentModelInfo w)))) /\
  ((chainLength w <= currentModelIndex w)%nat ->
   name (getCurrentModelInfo w) = "unknown"%string /\
   getCurrentModel w = inr (mkModel "gemini-2.5-pro")).
Proof.
  intros [Hp Hf]. unfold chainLength, getCurrentModel, getCurrentModelInfo.
  cbn [name index total]. rewrite Hp, Hf.
  split; [reflexivity|]. split; [reflexivity|].
  destruct (currentModelIndex w) as [|[|[|[|i]]]]; simpl;
    (split; [intros H; try reflexivity; lia|]);
    intros H; try lia.
  split; destruct i; reflexivity.
Qed.

Lemma getCurrentModelInfo_consistent_witness :
  getCurrentModel fallbackWorld
  = inr (mkModel (name (getCurrentModelInfo fallbackWorld))).
Proof.
  destruct (getCurrentModelInfo_consistent fallbackWorld) as (_ & _ & H & _).
  - split; reflexivity.
  - apply H. vm_compute. lia.
Defined.

(* ------------------------------------------------------------------ *)
(** ** Generation endpoints *)

Lemma executeWithRetry_first_success (T : Type) (env : Env)
    (operation : Operation T) (operationName : string) (w : World)
    (m : GenerativeModel) (result : T) (took : nat) :
  getCurrentModel w = inr m ->
  operation 0%nat m = (Fulfilled result, took) ->
  let w' := snd (callOperation operation 0 m (enforceRateLimit env w)) in
  executeWithRetry env operation operationName w = (Returned result, w') /\
  attempts (trace w') = (attempts (trace w) + 1)%nat /\
  sleepsAt BackoffWait (trace w') = sleepsAt BackoffWait (trace w) /\
  sleepsAt ModelSwitchWait (trace w') = sleepsAt ModelSwitchWait (trace w) /\
  currentModelIndex w' = currentModelIndex w.
Proof.
  intros Hm Hop w'. split.
  - unfold executeWithRetry. rewrite Nat.add_1_r. cbn [modelLoop].
    rewrite Hm. change (maxRetries RETRY_CONFIG) with 3%nat.
    rewrite retryLoop_step. cbn [totalAttempts]. rewrite Hop. reflexivity.
  - pose proof (callOperation_world T operation 0 m (enforceRateLimit env w))
      as ((_ & _ & Hc2) & Htrace & _).
    fold w' in Hc2, Htrace.
    destruct (enforceRateLimit_sameChain env w) as (_ & _ & Hc1).
    destruct (enforceRateLimit_trace env w) as (_ & Hatt & Hback & Hswitch).
    rewrite Htrace, attempts_cons, !sleepsAt_cons.
    cbn [isAttempt isSleepAt]. rewrite Hatt, Hback, Hswitch.
    repeat split; lia.
Qed.

Section ServiceFacts.

Variable env : Env.
Variable generateContent : GenerateContent.
Variable J : Type.
Variable JSON_parse : string -> option J.
Variable JSON_stringify : J -> string.

(** X13. An endpoint whose first request is answered does not look at
    the provider again: its outcome is what [extractJson] makes of that
    answer, a [SyntaxError] or the no-JSON error included, after exactly
    one invocation, without backoff and without moving the cursor.  The
    three image endpoints send the system prompt and the inline image;
    [generatePanelSpec] and [generateSpecFromText] send the system prompt
    and the user input they assemble. *)
Theorem endpoints_parse_first_answer (w : World) (m : GenerativeModel)
    (response : string) (took : nat) :
  getCurrentModel w = inr m ->
  (forall imageBase64 mimeType systemPrompt,
     generateContent [TextPart systemPrompt; InlineData imageBase64 mimeType]
                     0%nat m
     = (Fulfilled response, took) ->
     let r := analyzeIdentity env generateContent JSON_parse
                imageBase64 mimeType systemPrompt w in
     fst r = FromExtraction (extractJson JSON_parse response) /\
     attempts (trace (snd r)) = (attempts (trace w) + 1)%nat /\
     sleepsAt BackoffWait (trace (snd r)) = sleepsAt BackoffWait (trace w) /\
     currentModelIndex (snd r) = currentModelIndex w /\
     visualSweep env generateContent JSON_parse
       imageBase64 mimeType systemPrompt w = r /\
     generateSpecFromImage env generateContent JSON_parse
       imageBase64 mimeType systemPrompt w = r) /\
  (forall identity panelNumber systemPrompt,
     generateContent
       [TextPart systemPrompt;
        TextPart ("Generate panel specification for Panel "
                  ++ JsString.ofNat panelNumber ++ ":" ++ lineFeed
                  ++ JSON_stringify identity)%string] 0%nat m
     = (Fulfilled response, took) ->
     let r := generatePanelSpec env generateContent JSON_parse JSON_stringify
                identity panelNumber systemPrompt w in
     fst r = FromExtraction (extractJson JSON_parse response) /\
     attempts (trace (snd r)) = (attempts (trace w) + 1)%nat /\
     sleepsAt BackoffWait (trace (snd r)) = sleepsAt BackoffWait (trace w) /\
     currentModelIndex (snd r) = currentModelIndex w) /\
  (forall textInput systemPrompt,
     generateContent
       [TextPart systemPrompt;
        TextPart ("Transform into visual spec:" ++ lineFeed
                  ++ textInput)%string] 0%nat m
     = (Fulfilled response, took) ->
     let r := generateSpecFromText env generateContent JSON_parse
                textInput systemPrompt w in
     fst r = FromExtraction (extractJson JSON_parse response) /\
     attempts (trace (snd r)) = (attempts (trace w) + 1)%nat /\
     sleepsAt BackoffWait (trace (snd r)) = sleepsAt BackoffWait (trace w) /\
     currentModelIndex (snd r) = currentModelIndex w).
Proof.
  intros Hm. split; [|split].
  - intros imageBase64 mimeType systemPrompt Hop r.
    destruct (executeWithRetry_first_success string env _ "generateWithImage"
                w m response took Hm Hop)
      as (Hrun & Hatt & Hback & _ & Hcursor).
    subst r. unfold analyzeIdentity, visualSweep, generateSpecFromImage,
      generateWithImage, extractResponse.
    rewrite Hrun. cbn [fst snd].
    repeat split; assumption || reflexivity.
  - intros identity panelNumber systemPrompt Hop r.
    destruct (executeWithRetry_first_success string env _ "generateWithText"
                w m response took Hm Hop)
      as (Hrun & Hatt & Hback & _ & Hcursor).
    subst r. unfold generatePanelSpec, generateWithText, extractResponse.
    cbv zeta. rewrite Hrun. cbn [fst snd].
    repeat split; assumption || reflexivity.
  - intros textInput systemPrompt Hop r.
    destruct (executeWithRetry_first_success string env _ "generateWithText"
                w m response took Hm Hop)
      as (Hrun & Hatt & Hback & _ & Hcursor).
    subst r. unfold generateSpecFromText, generateWithText, extractResponse.
    rewrite Hrun. cbn [fst snd].
    repeat split; assumption || reflexivity.
Qed.

End ServiceFacts.

Lemma endpoints_parse_first_answer_witness :
  fst (analyzeIdentity promptTimers refusingProvider Json.parse
         "AAAA" "image/png" "Describe the identity" (initializedWorld 0))
  = FromExtraction (ThrewError noJsonError).
Proof.
  destruct (endpoints_parse_first_answer promptTimers refusingProvider
              Json.value Json.parse (fun _ => EmptyString)
              (initializedWorld 0) (mkModel "gemini-2.5-pro")
              "I cannot help"%string 10%nat eq_refl) as (Himage & _).
  destruct (Himage "AAAA"%string "image/png"%string
              "Describe the identity"%string eq_refl) as (Hres & _).
  rewrite Hres. reflexivity.
Defined.

(* ------------------------------------------------------------------ *)
(** ** Reading a data URL *)

Lemma splitComma_no_comma (s : string) :
  JsString.includes s "," = false -> splitComma s = [s].
Proof.
  induction s as [|c s IH]; intros H.
  - reflexivity.
  - rewrite RegexFacts.includes_unit in H.
    apply orb_false_iff in H as [Hc H].
    cbn [splitComma]. rewrite Ascii.eqb_sym, Hc, (IH H). reflexivity.
Qed.

Lemma splitComma_first (header rest : string) :
  JsString.includes header "," = false ->
  splitComma (header ++ "," ++ rest) = header :: splitComma rest.
Proof.
  induction header as [|c header IH]; intros H.
  - reflexivity.
  - rewrite RegexFacts.includes_unit in H.
    apply orb_false_iff in H as [Hc H].
    cbn [append splitComma]. rewrite Ascii.eqb_sym, Hc.
    change (header ++ String "," rest)%string
      with (header ++ "," ++ rest)%string.
    now rewrite (IH H).
Qed.

(** X14. For a reader result made of a header, a comma and a payload,
    neither containing a comma (a data URL with a base64 payload),
    [fileToBase64] resolves with exactly the payload and the file type;
    a payload with a comma is cut at it; a result without any comma
    gives [undefined]. *)
Theorem fileToBase64_payload (header payload fileType : string) :
  JsString.includes header "," = false ->
  (JsString.includes payload "," = false ->
   fileToBase64 (header ++ "," ++ payload) fileType
   = (Some payload, fileType)) /\
  (forall more,
     JsString.includes payload "," = false ->
     fileToBase64 (header ++ "," ++ payload ++ "," ++ more) fileType
     = (Some payload, fileType)) /\
  fileToBase64 header fileType = (None, fileType).
Proof.
  intros Hheader. unfold fileToBase64. split; [|split].
  - intros Hpayload.
    now rewrite (splitComma_first _ _ Hheader), (splitComma_no_comma _ Hpayload).
  - intros more Hpayload.
    now rewrite (splitComma_first _ _ Hheader), (splitComma_first _ _ Hpayload).
  - now rewrite (splitComma_no_comma _ Hheader).
Qed.

Lemma fileToBase64_payload_witness :
  fileToBase64 "data:image/png;base64,iVBORw0KGgo=" "image/png"
  = (Some "iVBORw0KGgo="%string, "image/png"%string).
Proof.
  destruct (fileToBase64_payload "data:image/png;base64" "iVBORw0KGgo="
              "image/png" eq_refl) as (H & _).
  apply H. reflexivity.
Defined.

(* ------------------------------------------------------------------ *)
(** ** Fenced blocks that are found *)

Module FenceFacts.

Import JsString JsStringFacts Regex RegexFacts.
Open Scope string_scope.

Lemma no_backquote_not_fence (c : ascii) (s : string) :
  Ascii.eqb "`" c = false -> startsWith fence (String c s) = false.
Proof. intros H. unfold fence. cbn [startsWith]. now rewrite H. Qed.

Lemma codeBlockMatch_skip (before rest : string) :
  includes before "`" = false ->
  codeBlockMatch (before ++ rest) = codeBlockMatch rest.
Proof.
  induction before as [|c before IH]; intros H.
  - reflexivity.
  - rewrite includes_unit in H. apply orb_false_iff in H as [Hc H].
    cbn [append codeBlockMatch]. unfold codeBlockAt.
    rewrite (no_backquote_not_fence _ _ Hc). now apply IH.
Qed.

Lemma trimStart_spaces (spaces s : string) :
  allSpace spaces = true -> trimStart (spaces ++ s) = trimStart s.
Proof.
  induction spaces as [|c spaces IH]; intros H.
  - reflexivity.
  - simpl in H. apply andb_true_iff in H as [Hc H].
    cbn [append trimStart]. rewrite Hc. now apply IH.
Qed.

Lemma upToFence_body (body after : string) :
  includes body "`" = false ->
  upToFence (body ++ fence ++ after) = Some body.
Proof.
  induction body as [|c body IH]; intros H.
  - reflexivity.
  - rewrite includes_unit in H. apply orb_false_iff in H as [Hc H].
    cbn [append upToFence].
    rewrite (no_backquote_not_fence _ _ Hc). now rewrite (IH H).
Qed.

Lemma trimStart_length (s : string) : (length (trimStart s) <= length s)%nat.
Proof.
  induction s as [|c s IH]; simpl; [lia|].
  destruct (isSpace c); simpl; lia.
Qed.

Lemma trimStart_body (body after : string) :
  trimStart body = body ->
  trimStart (body ++ fence ++ after) = body ++ fence ++ after.
Proof.
  destruct body as [|c body]; intros H.
  - reflexivity.
  - cbn [append trimStart] in *. destruct (isSpace c) eqn:Hc; [|reflexivity].
    exfalso. pose proof (f_equal length H) as Hlen.
    pose proof (trimStart_length body). simpl in Hlen. lia.
Qed.

Lemma codeBlockMatch_at (s g : string) :
  codeBlockAt s = Some g -> codeBlockMatch s = Some g.
Proof. intros H. destruct s; cbn [codeBlockMatch]; now rewrite H. Qed.

End FenceFacts.

(** X15. A block opened by the fence and the tag [json] (or by the fence
    alone when what follows does not begin with [json]), the body of
    which has no back-quote and does not begin with white space, is the
    block [extractJson] parses when no back-quote precedes it: the result
    is the parse of the trimmed body, whatever surrounds the block. *)
Theorem extractJson_fenced_block (J : Type) (JSON_parse : string -> option J)
    (before tag spaces body after : string) :
  JsString.includes before "`" = false ->
  (tag = "json"%string \/
   tag = EmptyString /\
   JsString.startsWith "json" (spaces ++ body ++ Regex.fence ++ after) = false) ->
  allSpace spaces = true ->
  JsString.trimStart body = body ->
  JsString.includes body "`" = false ->
  Regex.codeBlockMatch
    (before ++ Regex.fence ++ tag ++ spaces ++ body ++ Regex.fence ++ after)
  = Some body /\
  extractJson JSON_parse
    (before ++ Regex.fence ++ tag ++ spaces ++ body ++ Regex.fence ++ after)
  = parseOrThrow JSON_parse (JsString.trim body).
Proof.
  intros Hbefore Htag Hspaces Htrim Hbody.
  assert (Hmatch :
    Regex.codeBlockMatch
      (before ++ Regex.fence ++ tag ++ spaces ++ body ++ Regex.fence ++ after)
    = Some body).
  { rewrite (FenceFacts.codeBlockMatch_skip _ _ Hbefore).
    assert (Hat : Regex.codeBlockAt
                    (Regex.fence ++ tag ++ spaces ++ body
                     ++ Regex.fence ++ after) = Some body).
    { unfold Regex.codeBlockAt.
      change (JsString.startsWith Regex.fence
                (Regex.fence ++ tag ++ spaces ++ body ++ Regex.fence ++ after))
        with true.
      change (Regex.drop 3 (Regex.fence ++ tag ++ spaces ++ body
                            ++ Regex.fence ++ after))
        with (tag ++ spaces ++ body ++ Regex.fence ++ after)%string.
      cbv iota.
      assert (Hopt : Regex.optionalJson
                       (tag ++ spaces ++ body ++ Regex.fence ++ after)
                     = (spaces ++ body ++ Regex.fence ++ after)%string).
      { destruct Htag as [-> | [-> Hno]].
        - reflexivity.
        - unfold Regex.optionalJson. cbn [append]. now rewrite Hno. }
      rewrite Hopt, (FenceFacts.trimStart_spaces _ _ Hspaces).
      rewrite (FenceFacts.trimStart_body _ _ Htrim).
      now apply FenceFacts.upToFence_body. }
    now apply FenceFacts.codeBlockMatch_at. }
  split; [exact Hmatch|]. unfold extractJson. now rewrite Hmatch.
Qed.

Lemma extractJson_fenced_block_witness :
  extractJson Json.parse
    ("Sure! " ++ Regex.fence ++ "json" ++ lineFeed ++ sampleObject
     ++ Regex.fence ++ " Anything else?")
  = Extracted (Json.Object [("a"%string, Json.Number 1)]).
Proof.
  destruct (extractJson_fenced_block Json.value Json.parse "Sure! " "json"
              lineFeed sampleObject " Anything else?"
              eq_refl (or_introl eq_refl) eq_refl eq_refl eq_refl)
    as (_ & H).
  rewrite H. reflexivity.
Defined.

(* ------------------------------------------------------------------ *)
(** ** Where a result or a rethrown error comes from *)

Section OrchestratorOrigins.

Variable T : Type.
Variable env : Env.
Variable operation : Operation T.





End OrchestratorOrigins.


